(** * A chat server over Bun's WebSocket publish/subscribe: src/index.ts

    The development embeds the handlers of [src/index.ts] — [joinRoom],
    [leaveRoom], [getUsernameFromReq], [fetch] and the [open], [message]
    and [close] hooks — as functions in a small state-and-trace monad, and
    proves the membership and routing properties of the chat service.

    Conventions.
    - A JavaScript string is a [string]; the only characters the code
      inspects are ["/"] and [" "], and [toLowerCase] is only compared with
      ASCII literals.
    - [ws.data.rooms], a [Set<string>], is a list in insertion order that
      never holds a name twice (a JavaScript [Set] iterates in insertion
      order, and [close] and [/myrooms] iterate it).
    - A connection [ws] is named by a number; [ws.data] and the topic table
      of the runtime are the state threaded through the monad.
    - Every call the handlers make ([ws.subscribe], [ws.send],
      [server.publish], [console.log], the mutations of [rooms]) is recorded,
      in program order, in the trace. *)

From stdpp Require Import gmap strings list.
From Stdlib Require Import Ascii.
From Stdlib Require String.

#[local] Set Warnings "-clear-no-such-hyp".

(** * The program *)

(** ** JavaScript strings *)

Module Js.

(** [s.startsWith(c)] for a one-character [c]. *)
Definition startsWith (s : string) (c : ascii) : bool :=
  match s with
  | String a _ => Ascii.eqb a c
  | EmptyString => false
  end.

(** [s.slice(1)]. *)
Definition slice1 (s : string) : string :=
  match s with
  | String _ s' => s'
  | EmptyString => EmptyString
  end.

(** [s.split(sep)] for a one-character separator: the string is cut at
    every occurrence of [sep]; the result always has at least one
    element, and adjacent separators give empty elements. *)
Fixpoint split (sep : ascii) (s : string) : list string :=
  match s with
  | EmptyString => [EmptyString]
  | String a s' =>
      if Ascii.eqb a sep then EmptyString :: split sep s'
      else match split sep s' with
           | t :: ts => String a t :: ts
           | [] => [String a EmptyString]
           end
  end.

(** [xs.join(sep)]. *)
Fixpoint join (sep : string) (xs : list string) : string :=
  match xs with
  | [] => EmptyString
  | [x] => x
  | x :: xs' => x +:+ sep +:+ join sep xs'
  end.

(** [xs.slice(1)] on an array. *)
Definition slice1_array {A} (xs : list A) : list A := drop 1 xs.

Definition lower_ascii (a : ascii) : ascii :=
  let n := nat_of_ascii a in
  if (65 <=? n)%nat && (n <=? 90)%nat then ascii_of_nat (n + 32) else a.

(** [s.toLowerCase()] on the ASCII letters. No character outside ASCII
    lowers to a letter of [join], [leave], [room], [rooms] or [myrooms],
    so the comparison in [message] is not affected by the restriction. *)
Fixpoint toLowerCase (s : string) : string :=
  match s with
  | EmptyString => EmptyString
  | String a s' => String (lower_ascii a) (toLowerCase s')
  end.

(** Truthiness of [xs[0]] as used by [!roomName]: [undefined] and the
    empty string are falsy. *)
Definition falsy (x : option string) : bool :=
  match x with
  | None => true
  | Some s => String.eqb s ""
  end.

(** Truthiness of a string. *)
Definition falsy_str (s : string) : bool := String.eqb s "".

(** [a || b] on a string-or-null. *)
Definition or_else (x : option string) (dflt : string) : string :=
  if falsy x then dflt else default dflt x.

End Js.

(** [s.includes(c)] for a one-character [c]. *)
Fixpoint includes (c : ascii) (s : string) : bool :=
  match s with
  | EmptyString => false
  | String a s' => Ascii.eqb a c || includes c s'
  end.

(** ** [Set<string>] in insertion order *)

Module JsSet.

Definition t := list string.

Definition empty : t := [].

Definition has (x : string) (s : t) : bool := existsb (String.eqb x) s.

Definition add (x : string) (s : t) : t :=
  if has x s then s else s ++ [x].

Definition delete (x : string) (s : t) : t :=
  List.filter (fun y => negb (String.eqb x y)) s.

Definition clear (s : t) : t := [].

Definition size (s : t) : nat := length s.

End JsSet.

(** ** The data attached to a connection *)

Record WebSocketData := mkData {
  username : string;
  rooms : JsSet.t
}.

(** ** The publish/subscribe table of the runtime *)

(** The table behind [ws.subscribe], [ws.unsubscribe] and [server.publish]
    belongs to the Bun runtime and is not in the repository; it is modelled
    from section 4.2 of the specification. *)
Module Broadcaster.

(** Modelled from the spec: the subscription table of the runtime, which is
    not in the repository, maps a topic to the set of connections subscribed
    to it. *)
Abbreviation t := (gmap string (gset nat)).

(** Modelled from the spec: the connections [publish] delivers to, which
    are those currently subscribed to the topic (the runtime's table is not
    in the repository). *)
Definition subscribers (topic : string) (b : t) : gset nat :=
  default ∅ (b !! topic).

(** Modelled from the spec: whether the runtime has [ws] among the
    recipients of [topic]. *)
Definition isSubscribed (ws : nat) (topic : string) (b : t) : bool :=
  bool_decide (ws ∈ subscribers topic b).

(** Modelled from the spec: [ws.subscribe(topic)] of the runtime registers
    the connection as a recipient of the topic; subscribing twice has no
    further effect. *)
Definition subscribe (ws : nat) (topic : string) (b : t) : t :=
  <[topic := {[ws]} ∪ subscribers topic b]> b.

(** Modelled from the spec: [ws.unsubscribe(topic)] of the runtime removes
    the connection from the recipients of the topic, and changes nothing if
    it is not subscribed. *)
Definition unsubscribe (ws : nat) (topic : string) (b : t) : t :=
  if isSubscribed ws topic b
  then <[topic := subscribers topic b ∖ {[ws]}]> b
  else b.

End Broadcaster.

(** ** Effects and the handler monad *)

Inductive Effect :=
| Subscribe (ws : nat) (topic : string)
| Unsubscribe (ws : nat) (topic : string)
| RoomsAdd (ws : nat) (room : string)
| RoomsDelete (ws : nat) (room : string)
| RoomsClear (ws : nat)
| ConsoleLog (line : string)
| Send (ws : nat) (text : string)
| Publish (topic : string) (text : string).

(** What a handler reads and writes: the data of the connection it serves
    and the topic table shared by all connections. *)
Record Ctx := mkCtx {
  data : WebSocketData;
  pubsub : Broadcaster.t
}.

Definition M (A : Type) : Type := Ctx -> A * Ctx * list Effect.

#[global] Instance M_ret : MRet M := fun A (x : A) s => (x, s, []).

#[global] Instance M_bind : MBind M := fun A B (k : A -> M B) (m : M A) s =>
  let '(x, s1, t1) := m s in
  let '(y, s2, t2) := k x s1 in
  (y, s2, t1 ++ t2).

Definition emit (e : Effect) : M unit := fun s => (tt, s, [e]).

(** The state a handler leaves and the effects it performed. *)
Definition state_of {A} (r : A * Ctx * list Effect) : Ctx := snd (fst r).
Definition trace_of {A} (r : A * Ctx * list Effect) : list Effect := snd r.

(** Reads of [ws.data]. *)
Definition ws_username : M string := fun s => (username (data s), s, []).
Definition ws_rooms : M JsSet.t := fun s => (rooms (data s), s, []).

Definition set_rooms (r : JsSet.t) (s : Ctx) : Ctx :=
  mkCtx (mkData (username (data s)) r) (pubsub s).

Definition set_pubsub (b : Broadcaster.t) (s : Ctx) : Ctx :=
  mkCtx (data s) b.

(** [ws.subscribe(topic)] *)
Definition ws_subscribe (ws : nat) (topic : string) : M unit :=
  fun s => (tt, set_pubsub (Broadcaster.subscribe ws topic (pubsub s)) s,
            [Subscribe ws topic]).

(** [ws.unsubscribe(topic)] *)
Definition ws_unsubscribe (ws : nat) (topic : string) : M unit :=
  fun s => (tt, set_pubsub (Broadcaster.unsubscribe ws topic (pubsub s)) s,
            [Unsubscribe ws topic]).

(** [ws.data.rooms.add(room)] *)
Definition rooms_add (ws : nat) (room : string) : M unit :=
  fun s => (tt, set_rooms (JsSet.add room (rooms (data s))) s,
            [RoomsAdd ws room]).

(** [ws.data.rooms.delete(room)] *)
Definition rooms_delete (ws : nat) (room : string) : M unit :=
  fun s => (tt, set_rooms (JsSet.delete room (rooms (data s))) s,
            [RoomsDelete ws room]).

(** [ws.data.rooms.clear()] *)
Definition rooms_clear (ws : nat) : M unit :=
  fun s => (tt, set_rooms (JsSet.clear (rooms (data s))) s, [RoomsClear ws]).

(** [console.log(line)] *)
Definition console_log (line : string) : M unit := emit (ConsoleLog line).

(** [ws.send(text)] *)
Definition ws_send (ws : nat) (text : string) : M unit := emit (Send ws text).

(** [server.publish(topic, text)] *)
Definition server_publish (topic text : string) : M unit :=
  emit (Publish topic text).

(** [for (const x of xs) body(x)], for a body that does not change [xs]. *)
Fixpoint for_of {A} (xs : list A) (body : A -> M unit) : M unit :=
  match xs with
  | [] => mret tt
  | x :: xs' => body x ;; for_of xs' body
  end.

(** ** The room helpers *)

Definition joinRoom (ws : nat) (roomName : string) : M unit :=
  ws_subscribe ws roomName ;;
  rooms_add ws roomName ;;
  u ← ws_username;
  console_log ("User " +:+ u +:+ " joined room: " +:+ roomName) ;;
  ws_send ws ("You have joined room: " +:+ roomName) ;;
  server_publish roomName (u +:+ " has joined the room").

Definition leaveRoom (ws : nat) (roomName : string) : M unit :=
  rs ← ws_rooms;
  if negb (JsSet.has roomName rs) then
    ws_send ws ("You are not in room " +:+ roomName)
  else
    ws_unsubscribe ws roomName ;;
    rooms_delete ws roomName ;;
    u ← ws_username;
    console_log ("User " +:+ u +:+ " left room: " +:+ roomName) ;;
    ws_send ws ("You have left room: " +:+ roomName) ;;
    server_publish roomName (u +:+ " has left the room").

(** ** The upgrade request *)

(** The parts of [new URL(req.url)] the code reads: the path and the query
    parameters, in the order they appear in the URL. *)
Record Request := mkRequest {
  pathname : string;
  searchParams : list (string * string)
}.

(** [url.searchParams.get(name)]: the first value given for [name], or
    [null]. *)
Fixpoint searchParams_get (name : string) (ps : list (string * string))
  : option string :=
  match ps with
  | [] => None
  | (k, v) :: ps' => if String.eqb k name then Some v
                     else searchParams_get name ps'
  end.

Definition getUsernameFromReq (req : Request) : string :=
  Js.or_else (searchParams_get "username" (searchParams req)) "Anonymous".

Inductive FetchResult :=
| Upgraded (d : WebSocketData)
| Response (body : string) (status : nat).

(** [fetch]; [success] is what [server.upgrade] answers. *)
Definition fetch (req : Request) (success : bool)
  : FetchResult * list Effect :=
  if String.eqb (pathname req) "/chat" then
    let username := getUsernameFromReq req in
    (if success then Upgraded (mkData username JsSet.empty)
     else Response "WebSocket upgrade error" 400,
     [ConsoleLog "WebSocket upgrade request received"])
  else (Response "Simple WebSocket Server" 200, []).

(** ** The WebSocket hooks *)

Definition nl : string := String "010" EmptyString.

Definition help_text : string :=
  "Available commands:" +:+ nl +:+
  "- /join [room] - Join a room" +:+ nl +:+
  "- /leave [room] - Leave a room" +:+ nl +:+
  "- /room [room] [message] - Send a message to a room" +:+ nl +:+
  "- /rooms - List all available rooms" +:+ nl +:+
  "- /myrooms - List rooms you've joined" +:+ nl +:+
  "- Any other message will be echoed back to you".

Definition open (ws : nat) : M unit :=
  u ← ws_username;
  console_log ("User " +:+ u +:+ " connected") ;;
  ws_send ws ("Welcome, " +:+ u +:+ "!") ;;
  ws_send ws help_text.

(** The value of [xs[0]] where it is a string. *)
Definition str (x : option string) : string := default "" x.

Definition message (ws : nat) (messageStr : string) : M unit :=
  u ← ws_username;
  console_log ("Message from " +:+ u +:+ ": " +:+ messageStr) ;;
  if Js.startsWith messageStr "/" then
    match Js.split " " (Js.slice1 messageStr) with
    | [] => mret tt (* [split] never returns an empty array *)
    | command :: args =>
        let cmd := Js.toLowerCase command in
        if String.eqb cmd "join" then
          let roomName := args !! 0%nat in
          if Js.falsy roomName then
            ws_send ws "Please specify a room name: /join [room]"
          else joinRoom ws (str roomName)
        else if String.eqb cmd "leave" then
          let roomName := args !! 0%nat in
          if Js.falsy roomName then
            ws_send ws "Please specify a room name: /leave [room]"
          else leaveRoom ws (str roomName)
        else if String.eqb cmd "room" then
          let roomName := args !! 0%nat in
          let roomMessage := Js.join " " (Js.slice1_array args) in
          if Js.falsy roomName || Js.falsy_str roomMessage then
            ws_send ws
              "Please specify a room name and message: /room [room] [message]"
          else
            console_log "Available rooms : [object Set]" ;;
            rs ← ws_rooms;
            if negb (JsSet.has (str roomName) rs) then
              ws_send ws ("You are not in room " +:+ str roomName +:+
                          ". Join it first with /join " +:+ str roomName)
            else
              let formattedMessage :=
                "[" +:+ str roomName +:+ "] " +:+ u +:+ ": " +:+ roomMessage in
              server_publish (str roomName) formattedMessage
        else if String.eqb cmd "rooms" then
          ws_send ws "To join a room, use: /join [room]"
        else if String.eqb cmd "myrooms" then
          rs ← ws_rooms;
          if (JsSet.size rs =? 0)%nat then
            ws_send ws
              "You have not joined any rooms. Join one with /join [room]"
          else
            let roomList := Js.join nl rs in
            ws_send ws ("Your rooms:" +:+ nl +:+ roomList)
        else
          ws_send ws ("Unknown command: " +:+ command +:+
            ". Available commands: /join, /leave, /room, /rooms, /myrooms")
    end
  else
    let response := u +:+ ": " +:+ messageStr in
    ws_send ws response.

Definition close (ws : nat) : M unit :=
  u ← ws_username;
  console_log ("User " +:+ u +:+ " disconnected") ;;
  rs ← ws_rooms;
  for_of rs (fun roomName =>
    u ← ws_username;
    server_publish roomName (u +:+ " has left the room (disconnected)") ;;
    ws_unsubscribe ws roomName) ;;
  rooms_clear ws.

(** ** The command line *)

(** [const [command, ...args] = messageStr.slice(1).split(' ')] *)
Definition command_line (messageStr : string) : option string * list string :=
  let parts := Js.split " " (Js.slice1 messageStr) in
  (parts !! 0%nat, Js.slice1_array parts).

Definition known_commands : list string :=
  ["join"; "leave"; "room"; "rooms"; "myrooms"].

Definition is_known (cmd : string) : bool :=
  existsb (String.eqb cmd) known_commands.

(** ** Sequences of room operations on one connection *)

(** A connection as [fetch] creates it, before any subscription exists. *)
Definition fresh (u : string) : Ctx := mkCtx (mkData u JsSet.empty) ∅.

(** A connection that is in the room [lobby] and nowhere else. *)
Definition in_lobby (ws : nat) (u : string) : Ctx :=
  mkCtx (mkData u ["lobby"]) {["lobby" := {[ws]}]}.

Inductive Op :=
| Join (R : string)
| Leave (R : string)
| Close.

Definition perform (ws : nat) (o : Op) : M unit :=
  match o with
  | Join R => joinRoom ws R
  | Leave R => leaveRoom ws R
  | Close => close ws
  end.

Definition perform_all (ws : nat) (ops : list Op) : M unit :=
  for_of ops (perform ws).

(** ** The server: all connections and the shared topic table *)

Record Server := mkServer {
  sockets : gmap nat WebSocketData;
  topics : Broadcaster.t
}.

Definition initial : Server := mkServer ∅ ∅.

(** What the transport delivers: an HTTP request (with the answer of
    [server.upgrade] and the identity of the new connection), a text frame
    on an open connection, the end of a connection. *)
Inductive Event :=
| Connect (ws : nat) (req : Request) (success : bool)
| Receive (ws : nat) (messageStr : string)
| Disconnect (ws : nat).

(** Run a hook of connection [ws] against the server; [keep] tells whether
    the connection stays open afterwards. *)
Definition with_socket (ws : nat) (d : WebSocketData) (h : M unit)
    (keep : bool) (srv : Server) : Server * list Effect :=
  let r := h (mkCtx d (topics srv)) in
  (mkServer (if keep then <[ws := data (state_of r)]> (sockets srv)
             else delete ws (sockets srv))
            (pubsub (state_of r)),
   trace_of r).

Definition handle (ev : Event) (srv : Server) : option (Server * list Effect) :=
  match ev with
  | Connect ws req success =>
      match sockets srv !! ws with
      | Some _ => None
      | None =>
          match fetch req success with
          | (Upgraded d, t) =>
              let '(srv', t') := with_socket ws d (open ws) true srv in
              Some (srv', t ++ t')
          | (Response _ _, t) => Some (srv, t)
          end
      end
  | Receive ws messageStr =>
      d ← sockets srv !! ws;
      Some (with_socket ws d (message ws messageStr) true srv)
  | Disconnect ws =>
      d ← sockets srv !! ws;
      Some (with_socket ws d (close ws) false srv)
  end.

Inductive reachable : Server → Prop :=
| reachable_initial : reachable initial
| reachable_step srv ev srv' t :
    reachable srv → handle ev srv = Some (srv', t) → reachable srv'.

(** ** Observations and invariants *)

(** The effects other than console logging. *)
Definition is_log (e : Effect) : bool :=
  match e with ConsoleLog _ => true | _ => false end.

Definition effects (t : list Effect) : list Effect :=
  List.filter (fun e => negb (is_log e)) t.

Definition is_publish (e : Effect) : bool :=
  match e with Publish _ _ => true | _ => false end.

Definition is_send (e : Effect) : bool :=
  match e with Send _ _ => true | _ => false end.

(** The two views of membership agree for connection [ws]: a room is in
    [ws.data.rooms] exactly when [ws] is subscribed to the topic. *)
Definition consistent (ws : nat) (s : Ctx) : Prop :=
  ∀ R, JsSet.has R (rooms (data s)) = true
       ↔ ws ∈ Broadcaster.subscribers R (pubsub s).

(** [keeps ws s s']: going from [s] to [s'] leaves the user name alone, keeps
    the two views of [ws]'s membership in agreement, keeps [rooms] free of
    repetitions, and does not touch the subscriptions of other
    connections. *)
Record keeps (ws : nat) (s s' : Ctx) : Prop := mkKeeps {
  keeps_username : username (data s') = username (data s);
  keeps_consistent : consistent ws s → consistent ws s';
  keeps_NoDup : NoDup (rooms (data s)) → NoDup (rooms (data s'));
  keeps_others : ∀ ws' R, ws' ≠ ws →
    ws' ∈ Broadcaster.subscribers R (pubsub s')
    ↔ ws' ∈ Broadcaster.subscribers R (pubsub s)
}.

Definition maintains {A} (ws : nat) (m : M A) : Prop :=
  ∀ s, keeps ws s (state_of (m s)).

(** The invariant of the data model, for all connections at once. *)
Record server_inv (srv : Server) : Prop := mkServerInv {
  inv_membership : ∀ ws R,
    ws ∈ Broadcaster.subscribers R (topics srv)
    ↔ ∃ d, sockets srv !! ws = Some d ∧ JsSet.has R (rooms d) = true;
  inv_username : ∀ ws d, sockets srv !! ws = Some d → username d ≠ "";
  inv_NoDup : ∀ ws d, sockets srv !! ws = Some d → NoDup (rooms d)
}.

(** The loop of [close]. *)
Definition close_body (ws : nat) (roomName : string) : M unit :=
  u ← ws_username;
  server_publish roomName (u +:+ " has left the room (disconnected)") ;;
  ws_unsubscribe ws roomName.

Definition unsubscribe_all (ws : nat) (rs : list string) (b : Broadcaster.t)
  : Broadcaster.t :=
  foldl (fun b r => Broadcaster.unsubscribe ws r b) b rs.

Definition close_events (ws : nat) (u : string) (rs : list string)
  : list Effect :=
  flat_map (fun r => [ Publish r (u +:+ " has left the room (disconnected)");
                       Unsubscribe ws r ]) rs.

(** ** The command line as the specification words it *)

(** Following the words of the spec, section 4.4: white space is a space,
    a tab, a line feed, a vertical tab, a form feed or a carriage return. *)
Definition spec_is_whitespace (a : ascii) : bool :=
  let n := nat_of_ascii a in
  (n =? 32)%nat || ((9 <=? n)%nat && (n <=? 13)%nat).

Fixpoint split_where (p : ascii → bool) (s : string) : list string :=
  match s with
  | EmptyString => [EmptyString]
  | String a s' =>
      if p a then EmptyString :: split_where p s'
      else match split_where p s' with
           | t :: ts => String a t :: ts
           | [] => [String a EmptyString]
           end
  end.

(** Following the words of the spec, section 4.4: the whitespace-delimited
    tokens of a string are its maximal runs of characters that are not
    white space. *)
Definition spec_whitespace_tokens (s : string) : list string :=
  List.filter (fun t => negb (String.eqb t ""))
              (split_where spec_is_whitespace s).

(** Following the words of the spec, section 4.4: the command name is the
    first whitespace-delimited token after the leading ["/"], and the
    arguments are the remaining ones. *)
Definition spec_command_line (messageStr : string)
  : option string * list string :=
  let tokens := spec_whitespace_tokens (Js.slice1 messageStr) in
  (tokens !! 0%nat, Js.slice1_array tokens).

Definition tab : string := String "009" EmptyString.

(** ** Whom an effect concerns, and runs of the server *)

(** Whether an effect that names a connection names [ws]; a console line
    and a publication name none. *)
Definition addressed_to (ws : nat) (e : Effect) : bool :=
  match e with
  | Subscribe w _ | Unsubscribe w _ | RoomsAdd w _ | RoomsDelete w _
  | RoomsClear w | Send w _ => Nat.eqb w ws
  | ConsoleLog _ | Publish _ _ => true
  end.

(** Every effect of [m] that names a connection names [ws]. *)
Definition own_effects {A} (ws : nat) (m : M A) : Prop :=
  ∀ s, forallb (addressed_to ws) (trace_of (m s)) = true.

(** The connection an event is about. *)
Definition event_socket (ev : Event) : nat :=
  match ev with
  | Connect ws _ _ | Receive ws _ | Disconnect ws => ws
  end.

(** The server after a list of events, with everything the hooks did. *)
Fixpoint run_events (evs : list Event) (srv : Server)
  : option (Server * list Effect) :=
  match evs with
  | [] => Some (srv, [])
  | ev :: evs' =>
      '(srv1, t1) ← handle ev srv;
      '(srv2, t2) ← run_events evs' srv1;
      Some (srv2, t1 ++ t2)
  end.

(** Alice is in the lobby, Bob is connected and in no room. *)
Definition two_users : Server :=
  mkServer {[ 1%nat := mkData "alice" ["lobby"]; 2%nat := mkData "bob" [] ]}
           {[ "lobby" := {[ 1%nat ]} ]}.

(** Alice and Bob connect and join the lobby, Bob says hi there, Alice
    goes. *)
Definition lobby_session : list Event :=
  [ Connect 1 (mkRequest "/chat" [("username", "alice")]) true;
    Connect 2 (mkRequest "/chat" [("username", "bob")]) true;
    Receive 1 "/join lobby";
    Receive 2 "/join lobby";
    Receive 2 "/room lobby hi";
    Disconnect 1 ].

(** The server after [lobby_session]. *)
Definition after_lobby_session : Server :=
  match run_events lobby_session initial with
  | Some (srv, _) => srv
  | None => initial
  end.

(** * Proofs *)

Ltac step_handler :=
  unfold mbind, mret, M_bind, M_ret, ws_subscribe, ws_unsubscribe,
    rooms_add, rooms_delete, rooms_clear, console_log, ws_send,
    server_publish, emit, ws_username, ws_rooms, state_of, trace_of,
    set_rooms, set_pubsub; simpl.

(** ** Running a few handlers *)

Example join_then_say :
  trace_of ((message 7 "/JOIN lobby" ;; message 7 "/room lobby hi  there")
              (fresh "alice"))
  = [ ConsoleLog "Message from alice: /JOIN lobby";
      Subscribe 7 "lobby"; RoomsAdd 7 "lobby";
      ConsoleLog "User alice joined room: lobby";
      Send 7 "You have joined room: lobby";
      Publish "lobby" "alice has joined the room";
      ConsoleLog "Message from alice: /room lobby hi  there";
      ConsoleLog "Available rooms : [object Set]";
      Publish "lobby" "[lobby] alice: hi  there" ].
Proof. vm_compute. reflexivity. Qed.

Example join_two_spaces :
  trace_of (message 7 "/join  lobby" (fresh "alice"))
  = [ ConsoleLog "Message from alice: /join  lobby";
      Send 7 "Please specify a room name: /join [room]" ].
Proof. vm_compute. reflexivity. Qed.

Example close_two_rooms :
  trace_of (close 7 (mkCtx (mkData "alice" ["A"; "B"])
                           {["A" := {[7%nat]}; "B" := {[7%nat; 8%nat]}]}))
  = [ ConsoleLog "User alice disconnected";
      Publish "A" "alice has left the room (disconnected)";
      Unsubscribe 7 "A";
      Publish "B" "alice has left the room (disconnected)";
      Unsubscribe 7 "B";
      RoomsClear 7 ].
Proof. reflexivity. Qed.

(** ** Facts about the containers *)

Section JsSetFacts.
Implicit Types (x y : string) (s : JsSet.t).

Lemma has_elem_of x s : JsSet.has x s = true ↔ x ∈ s.
Proof.
  unfold JsSet.has. rewrite existsb_exists, list_elem_of_In. split.
  - intros (y & Hy & Heq). apply String.eqb_eq in Heq. by subst.
  - intros Hx. exists x. split; [done | apply String.eqb_refl].
Qed.

Lemma has_add x y s :
  JsSet.has x (JsSet.add y s) = String.eqb x y || JsSet.has x s.
Proof.
  unfold JsSet.add. destruct (JsSet.has y s) eqn:Hy.
  - destruct (String.eqb_spec x y) as [->|]; [by rewrite Hy | done].
  - unfold JsSet.has. rewrite existsb_app. simpl.
    rewrite orb_false_r. apply orb_comm.
Qed.

Lemma has_delete x y s :
  JsSet.has x (JsSet.delete y s) = negb (String.eqb x y) && JsSet.has x s.
Proof.
  unfold JsSet.has, JsSet.delete. induction s as [|z s IH]; simpl.
  - by rewrite andb_false_r.
  - destruct (String.eqb_spec y z) as [->|Hyz]; simpl.
    + rewrite IH. destruct (String.eqb_spec x z); simpl; [done|done].
    + rewrite IH. destruct (String.eqb_spec x z) as [->|]; simpl.
      * destruct (String.eqb_spec z y); [congruence | done].
      * done.
Qed.

Lemma add_has x s : JsSet.has x s = true → JsSet.add x s = s.
Proof. unfold JsSet.add. by intros ->. Qed.

Lemma add_NoDup x s : NoDup s → NoDup (JsSet.add x s).
Proof.
  intros Hs. unfold JsSet.add. destruct (JsSet.has x s) eqn:Hx; [done|].
  apply NoDup_app. split_and!; [done | | apply NoDup_singleton].
  intros y Hy ->%list_elem_of_singleton.
  apply has_elem_of in Hy. congruence.
Qed.

Lemma delete_NoDup x s : NoDup s → NoDup (JsSet.delete x s).
Proof.
  intros Hs. unfold JsSet.delete. apply NoDup_ListNoDup.
  apply List.NoDup_filter. by apply NoDup_ListNoDup.
Qed.

End JsSetFacts.

Section BroadcasterFacts.
Import Broadcaster.
Implicit Types (ws : nat) (topic : string) (b : Broadcaster.t).

Lemma isSubscribed_elem_of ws topic b :
  isSubscribed ws topic b = true ↔ ws ∈ subscribers topic b.
Proof. unfold isSubscribed. by rewrite bool_decide_eq_true. Qed.

Lemma subscribers_subscribe ws topic topic' b :
  subscribers topic' (subscribe ws topic b)
  = if decide (topic = topic') then {[ws]} ∪ subscribers topic' b
    else subscribers topic' b.
Proof.
  unfold subscribe, subscribers at 1. case_decide as Heq.
  - subst. by rewrite lookup_insert_eq.
  - by rewrite lookup_insert_ne.
Qed.

Lemma subscribers_unsubscribe ws topic topic' b :
  subscribers topic' (unsubscribe ws topic b)
  = if decide (topic = topic') then subscribers topic' b ∖ {[ws]}
    else subscribers topic' b.
Proof.
  unfold unsubscribe. destruct (isSubscribed ws topic b) eqn:Hsub.
  - unfold subscribers at 1. case_decide as Heq.
    + subst. by rewrite lookup_insert_eq.
    + by rewrite lookup_insert_ne.
  - case_decide as Heq; [subst | done].
    assert (ws ∉ subscribers topic' b) as Hn.
    { rewrite <- isSubscribed_elem_of. by rewrite Hsub. }
    set_solver.
Qed.

(** Subscribing twice has no further effect. *)
Lemma subscribe_idem ws topic b :
  ws ∈ subscribers topic b → subscribe ws topic b = b.
Proof.
  unfold subscribe, subscribers. intros Hin.
  destruct (b !! topic) as [S|] eqn:Hb; simpl in *; [|set_solver].
  apply insert_id. rewrite Hb. f_equal. set_solver.
Qed.

(** Unsubscribing a connection that is not subscribed changes nothing. *)
Lemma unsubscribe_noop ws topic b :
  ws ∉ subscribers topic b → unsubscribe ws topic b = b.
Proof.
  intros Hn. unfold unsubscribe.
  destruct (isSubscribed ws topic b) eqn:Hsub; [|done].
  by apply isSubscribed_elem_of in Hsub.
Qed.

Lemma elem_of_subscribers_subscribe ws ws' topic topic' b :
  ws' ∈ subscribers topic' (subscribe ws topic b)
  ↔ (ws' = ws ∧ topic' = topic) ∨ ws' ∈ subscribers topic' b.
Proof. rewrite subscribers_subscribe. case_decide; set_solver. Qed.

Lemma elem_of_subscribers_unsubscribe ws ws' topic topic' b :
  ws' ∈ subscribers topic' (unsubscribe ws topic b)
  ↔ ws' ∈ subscribers topic' b ∧ ¬ (ws' = ws ∧ topic' = topic).
Proof. rewrite subscribers_unsubscribe. case_decide; set_solver. Qed.

End BroadcasterFacts.

(** ** Facts about [split], [join] and [toLowerCase] *)

Section StringFacts.
Implicit Types (s t : string) (sep a : ascii).

Lemma split_nonempty sep s : Js.split sep s ≠ [].
Proof.
  destruct s as [|a s]; simpl; [done|].
  destruct (Ascii.eqb a sep); [done|].
  by destruct (Js.split sep s).
Qed.

Lemma split_cons sep a s :
  Ascii.eqb a sep = false →
  ∃ t ts, Js.split sep s = t :: ts
          ∧ Js.split sep (String a s) = String a t :: ts.
Proof.
  intros Ha. simpl. rewrite Ha.
  destruct (Js.split sep s) as [|t ts] eqn:Hs.
  - by apply split_nonempty in Hs.
  - by exists t, ts.
Qed.

(** Cutting at [sep] and gluing with [sep] gives the string back. *)
Lemma join_split sep s :
  Js.join (String sep EmptyString) (Js.split sep s) = s.
Proof.
  induction s as [|a s IH]; [done|].
  destruct (Ascii.eqb a sep) eqn:Ha.
  - simpl. rewrite Ha. apply Ascii.eqb_eq in Ha. subst a.
    destruct (Js.split sep s) as [|t ts] eqn:Hs.
    + by apply split_nonempty in Hs.
    + simpl in *. by rewrite IH.
  - destruct (split_cons sep a s Ha) as (t & ts & Hs & ->).
    rewrite Hs in IH. destruct ts as [|t' ts].
    + simpl in *. by rewrite IH.
    + change (String a (Js.join (String sep EmptyString) (t :: t' :: ts))
              = String a s).
      by rewrite IH.
Qed.

Lemma split_no_sep sep s : includes sep s = false → Js.split sep s = [s].
Proof.
  induction s as [|a s IH]; simpl; [done|].
  intros [Ha Hs]%orb_false_elim. rewrite Ha, IH; done.
Qed.

(** The first piece ends at the first separator. *)
Lemma split_app sep s t :
  includes sep s = false →
  Js.split sep (s +:+ String sep t) = s :: Js.split sep t.
Proof.
  induction s as [|a s IH]; simpl.
  - intros _. by rewrite Ascii.eqb_refl.
  - intros [Ha Hs]%orb_false_elim. rewrite Ha, IH; done.
Qed.

(** No piece contains the separator. *)
Lemma split_pieces sep s :
  Forall (fun t => includes sep t = false) (Js.split sep s).
Proof.
  induction s as [|a s IH]; simpl.
  - by repeat constructor.
  - destruct (Ascii.eqb a sep) eqn:Ha.
    + by constructor.
    + destruct (Js.split sep s) as [|t ts]; simpl.
      * repeat constructor. simpl. by rewrite Ha.
      * inversion IH; subst. constructor; [|done]. simpl. by rewrite Ha.
Qed.

Lemma lower_ascii_idem a : Js.lower_ascii (Js.lower_ascii a) = Js.lower_ascii a.
Proof. by destruct a as [[] [] [] [] [] [] [] []]. Qed.

Lemma lower_ascii_space a :
  Ascii.eqb (Js.lower_ascii a) " " = Ascii.eqb a " ".
Proof. by destruct a as [[] [] [] [] [] [] [] []]. Qed.

Lemma toLowerCase_idem s :
  Js.toLowerCase (Js.toLowerCase s) = Js.toLowerCase s.
Proof.
  induction s as [|a s IH]; simpl; [done|].
  by rewrite lower_ascii_idem, IH.
Qed.

Lemma includes_space_toLowerCase s :
  includes " " (Js.toLowerCase s) = includes " " s.
Proof.
  induction s as [|a s IH]; simpl; [done|].
  by rewrite lower_ascii_space, IH.
Qed.

Lemma falsy_false x : Js.falsy x = false ↔ ∃ s, x = Some s ∧ s ≠ "".
Proof.
  destruct x as [s|]; simpl.
  - rewrite String.eqb_neq. naive_solver.
  - naive_solver.
Qed.

Lemma falsy_str_false s : Js.falsy_str s = false ↔ s ≠ "".
Proof. unfold Js.falsy_str. apply String.eqb_neq. Qed.

End StringFacts.

Lemma split_command_line command rest :
  includes " " command = false →
  Js.split " " (Js.slice1 ("/" +:+ command +:+ " " +:+ rest))
  = command :: Js.split " " rest.
Proof. intros H. simpl. by apply (split_app " "). Qed.

(** ** What the handlers do to the state *)

Lemma ctx_eta s :
  mkCtx (mkData (username (data s)) (rooms (data s))) (pubsub s) = s.
Proof. by destruct s as [[u r] b]. Qed.

Lemma log_then (line : string → string) (k : string → M unit) s :
  (ws_username ≫= λ u, console_log (line u) ≫= λ _, k u) s
  = ((k (username (data s)) s).1.1,
     state_of (k (username (data s)) s),
     ConsoleLog (line (username (data s)))
     :: trace_of (k (username (data s)) s)).
Proof.
  unfold mbind, M_bind, ws_username, console_log, emit, state_of, trace_of.
  by destruct (k (username (data s)) s) as [[y s2] t2].
Qed.

Lemma joinRoom_run ws R s :
  joinRoom ws R s =
  (tt,
   mkCtx (mkData (username (data s)) (JsSet.add R (rooms (data s))))
         (Broadcaster.subscribe ws R (pubsub s)),
   [ Subscribe ws R; RoomsAdd ws R;
     ConsoleLog ("User " +:+ username (data s) +:+ " joined room: " +:+ R);
     Send ws ("You have joined room: " +:+ R);
     Publish R (username (data s) +:+ " has joined the room") ]).
Proof. unfold joinRoom. step_handler. reflexivity. Qed.

Lemma leaveRoom_run_absent ws R s :
  JsSet.has R (rooms (data s)) = false →
  leaveRoom ws R s = (tt, s, [Send ws ("You are not in room " +:+ R)]).
Proof. intros H. unfold leaveRoom. step_handler. rewrite H. reflexivity. Qed.

Lemma leaveRoom_run_present ws R s :
  JsSet.has R (rooms (data s)) = true →
  leaveRoom ws R s =
  (tt,
   mkCtx (mkData (username (data s)) (JsSet.delete R (rooms (data s))))
         (Broadcaster.unsubscribe ws R (pubsub s)),
   [ Unsubscribe ws R; RoomsDelete ws R;
     ConsoleLog ("User " +:+ username (data s) +:+ " left room: " +:+ R);
     Send ws ("You have left room: " +:+ R);
     Publish R (username (data s) +:+ " has left the room") ]).
Proof. intros H. unfold leaveRoom. step_handler. rewrite H. reflexivity. Qed.

Lemma close_loop_run ws rs d b :
  for_of rs (close_body ws) (mkCtx d b) =
  (tt, mkCtx d (unsubscribe_all ws rs b), close_events ws (username d) rs).
Proof.
  revert b. induction rs as [|r rs IH]; intros b; [reflexivity|].
  simpl. unfold mbind, M_bind at 1.
  unfold close_body at 1. step_handler. rewrite IH. reflexivity.
Qed.

Lemma close_run ws s :
  close ws s =
  (tt,
   mkCtx (mkData (username (data s)) [])
         (unsubscribe_all ws (rooms (data s)) (pubsub s)),
   ConsoleLog ("User " +:+ username (data s) +:+ " disconnected")
   :: close_events ws (username (data s)) (rooms (data s))
   ++ [RoomsClear ws]).
Proof.
  destruct s as [d b].
  transitivity
    ((u ← ws_username;
      console_log ("User " +:+ u +:+ " disconnected") ;;
      rs ← ws_rooms;
      for_of rs (close_body ws) ;;
      rooms_clear ws) (mkCtx d b)); [reflexivity|].
  unfold mbind, M_bind. unfold ws_username, console_log, emit, ws_rooms.
  simpl. rewrite close_loop_run. reflexivity.
Qed.

Lemma elem_of_subscribers_unsubscribe_all ws ws' rs R b :
  ws' ∈ Broadcaster.subscribers R (unsubscribe_all ws rs b)
  ↔ ws' ∈ Broadcaster.subscribers R b ∧ ¬ (ws' = ws ∧ R ∈ rs).
Proof.
  revert b. induction rs as [|r rs IH]; intros b; simpl.
  - set_solver.
  - rewrite IH, elem_of_subscribers_unsubscribe, elem_of_cons. tauto.
Qed.

Lemma close_events_no_send ws u rs :
  List.filter is_send (close_events ws u rs) = [].
Proof. induction rs as [|r rs IH]; simpl; done. Qed.

(** ** What every handler maintains *)

Lemma keeps_refl ws s : keeps ws s s.
Proof. by split. Qed.

Lemma keeps_trans ws s1 s2 s3 :
  keeps ws s1 s2 → keeps ws s2 s3 → keeps ws s1 s3.
Proof.
  intros [Hu1 Hc1 Hn1 Ho1] [Hu2 Hc2 Hn2 Ho2]. split.
  - congruence.
  - auto.
  - auto.
  - intros ws' R Hne. rewrite Ho2, Ho1; done.
Qed.

Lemma maintains_ret {A} ws (x : A) : maintains ws (mret x).
Proof. intros s. apply keeps_refl. Qed.

Lemma maintains_bind {A B} ws (m : M A) (k : A → M B) :
  maintains ws m → (∀ x, maintains ws (k x)) → maintains ws (m ≫= k).
Proof.
  intros Hm Hk s. specialize (Hm s).
  unfold mbind, M_bind, state_of in *.
  destruct (m s) as [[x s1] t1] eqn:Hms. simpl in Hm.
  specialize (Hk x s1). unfold state_of in Hk.
  destruct (k x s1) as [[y s2] t2]. simpl in *.
  by eapply keeps_trans.
Qed.

Lemma maintains_emit ws e : maintains ws (emit e).
Proof. intros s. apply keeps_refl. Qed.

Lemma maintains_ws_username ws : maintains ws ws_username.
Proof. intros s. apply keeps_refl. Qed.

Lemma maintains_ws_rooms ws : maintains ws ws_rooms.
Proof. intros s. apply keeps_refl. Qed.

Lemma maintains_joinRoom ws R : maintains ws (joinRoom ws R).
Proof.
  intros s. rewrite joinRoom_run. unfold state_of. simpl. split; simpl.
  - done.
  - intros Hc R'. simpl. rewrite has_add, orb_true_iff, String.eqb_eq, (Hc R').
    rewrite elem_of_subscribers_subscribe. naive_solver.
  - apply add_NoDup.
  - intros ws' R' Hne. rewrite elem_of_subscribers_subscribe. naive_solver.
Qed.

Lemma maintains_leaveRoom ws R : maintains ws (leaveRoom ws R).
Proof.
  intros s. destruct (JsSet.has R (rooms (data s))) eqn:Hhas.
  - rewrite leaveRoom_run_present by done. unfold state_of. split; simpl.
    + done.
    + intros Hc R'. simpl.
      rewrite has_delete, andb_true_iff, negb_true_iff, (Hc R').
      rewrite elem_of_subscribers_unsubscribe.
      destruct (String.eqb_spec R' R); naive_solver.
    + apply delete_NoDup.
    + intros ws' R' Hne. rewrite elem_of_subscribers_unsubscribe.
      naive_solver.
  - rewrite leaveRoom_run_absent by done. apply keeps_refl.
Qed.

Lemma maintains_close ws : maintains ws (close ws).
Proof.
  intros s. rewrite close_run. unfold state_of. split; simpl.
  - done.
  - intros Hc R'. simpl. rewrite elem_of_subscribers_unsubscribe_all.
    rewrite <- (Hc R'), has_elem_of. naive_solver.
  - intros _. constructor.
  - intros ws' R' Hne. rewrite elem_of_subscribers_unsubscribe_all.
    naive_solver.
Qed.

Lemma maintains_open ws : maintains ws (open ws).
Proof.
  unfold open. repeat (apply maintains_bind; [|intros ?]);
    first [apply maintains_ws_username | apply maintains_emit].
Qed.

Lemma maintains_message ws messageStr : maintains ws (message ws messageStr).
Proof.
  unfold message.
  repeat first
    [ apply maintains_joinRoom
    | apply maintains_leaveRoom
    | apply maintains_ws_username
    | apply maintains_ws_rooms
    | apply maintains_emit
    | apply maintains_ret
    | apply maintains_bind; [|intros ?]
    | case_match ].
Qed.

Lemma maintains_perform_all ws ops : maintains ws (perform_all ws ops).
Proof.
  induction ops as [|o ops IH]; simpl.
  - apply maintains_ret.
  - apply maintains_bind; [|done].
    destruct o; [apply maintains_joinRoom | apply maintains_leaveRoom
                | apply maintains_close].
Qed.

Lemma consistent_fresh ws u : consistent ws (fresh u).
Proof.
  intros R. simpl. unfold Broadcaster.subscribers.
  rewrite lookup_empty. simpl. set_solver.
Qed.

(** ** The invariant of the server *)

Lemma getUsernameFromReq_nonempty req : getUsernameFromReq req ≠ "".
Proof.
  unfold getUsernameFromReq, Js.or_else.
  destruct (Js.falsy _) eqn:Hf; [done|].
  apply falsy_false in Hf as (s & -> & Hs). done.
Qed.

Lemma server_inv_initial : server_inv initial.
Proof.
  split; simpl.
  - intros ws R. unfold Broadcaster.subscribers.
    rewrite lookup_empty. simpl. split; [set_solver|].
    intros (d & Hd & _). by rewrite lookup_empty in Hd.
  - intros ws d. by rewrite lookup_empty.
  - intros ws d. by rewrite lookup_empty.
Qed.

Lemma consistent_of_inv srv ws d :
  server_inv srv → sockets srv !! ws = Some d →
  consistent ws (mkCtx d (topics srv)).
Proof.
  intros [Hm _ _] Hd R. simpl. rewrite Hm. split.
  - intros HR. by exists d.
  - intros (d' & Hd' & HR). congruence.
Qed.

(** A hook that maintains the per-connection invariant maintains the
    invariant of the server, whether the connection stays open or its
    rooms are empty when it goes. *)
Lemma with_socket_inv srv ws d h keep :
  server_inv srv →
  (∀ R, ws ∈ Broadcaster.subscribers R (topics srv)
        ↔ JsSet.has R (rooms d) = true) →
  username d ≠ "" → NoDup (rooms d) →
  maintains ws h →
  (keep = false → rooms (data (state_of (h (mkCtx d (topics srv))))) = []) →
  server_inv (with_socket ws d h keep srv).1.
Proof.
  intros [Hm Hu Hn] Hws Hud Hnd Hh Hgone.
  destruct (Hh (mkCtx d (topics srv))) as [Hu' Hc' Hn' Ho'].
  simpl in *.
  assert (consistent ws (mkCtx d (topics srv))) as Hc.
  { intros R. simpl. by rewrite Hws. }
  specialize (Hc' Hc). unfold with_socket. simpl.
  set (s' := state_of (h (mkCtx d (topics srv)))) in *.
  split; simpl.
  - intros ws' R. destruct (decide (ws' = ws)) as [->|Hne].
    + rewrite <- (Hc' R). destruct keep.
      * rewrite lookup_insert_eq. naive_solver.
      * rewrite lookup_delete_eq, (Hgone eq_refl). simpl. naive_solver.
    + rewrite (Ho' ws' R Hne), Hm. destruct keep.
      * by rewrite lookup_insert_ne.
      * by rewrite lookup_delete_ne.
  - intros ws' d'. destruct keep.
    + rewrite lookup_insert. case_decide; [|by apply Hu].
      intros [= <-]. by rewrite Hu'.
    + rewrite lookup_delete. case_decide; [done | by apply Hu].
  - intros ws' d'. destruct keep.
    + rewrite lookup_insert. case_decide; [|by apply Hn].
      intros [= <-]. by apply Hn'.
    + rewrite lookup_delete. case_decide; [done | by apply Hn].
Qed.

Lemma handle_inv ev srv srv' t :
  server_inv srv → handle ev srv = Some (srv', t) → server_inv srv'.
Proof.
  intros Hinv Hstep. destruct ev as [ws req success|ws messageStr|ws];
    simpl in Hstep.
  - destruct (sockets srv !! ws) as [d|] eqn:Hd; [done|].
    unfold fetch in Hstep.
    destruct (String.eqb (pathname req) "/chat");
      [destruct success|]; simplify_eq; try done.
    apply (with_socket_inv srv ws _ (open ws) true).
    + done.
    + intros R. simpl. rewrite (inv_membership _ Hinv).
      split; [|done]. intros (d & Hd' & _). congruence.
    + apply getUsernameFromReq_nonempty.
    + constructor.
    + apply maintains_open.
    + done.
  - destruct (sockets srv !! ws) as [d|] eqn:Hd; simplify_eq/=.
    assert (srv' = (with_socket ws d (message ws messageStr) true srv).1)
      as -> by (by rewrite Hstep).
    apply (with_socket_inv srv ws d (message ws messageStr) true).
    + done.
    + intros R. rewrite (inv_membership _ Hinv). split.
      * intros (d' & Hd' & HR). congruence.
      * intros HR. by exists d.
    + by eapply inv_username.
    + by eapply inv_NoDup.
    + apply maintains_message.
    + done.
  - destruct (sockets srv !! ws) as [d|] eqn:Hd; simplify_eq/=.
    assert (srv' = (with_socket ws d (close ws) false srv).1)
      as -> by (by rewrite Hstep).
    apply (with_socket_inv srv ws d (close ws) false).
    + done.
    + intros R. rewrite (inv_membership _ Hinv). split.
      * intros (d' & Hd' & HR). congruence.
      * intros HR. by exists d.
    + by eapply inv_username.
    + by eapply inv_NoDup.
    + apply maintains_close.
    + intros _. by rewrite close_run.
Qed.

Lemma reachable_inv srv : reachable srv → server_inv srv.
Proof.
  induction 1 as [|srv ev srv' t _ IH Hstep].
  - apply server_inv_initial.
  - by eapply handle_inv.
Qed.

(** In every state the server reaches, a connection is among the
    subscribers of a topic exactly when it is open and has the room in its
    rooms. *)
Theorem reachable_membership srv ws R :
  reachable srv →
  ws ∈ Broadcaster.subscribers R (topics srv)
  ↔ ∃ d, sockets srv !! ws = Some d ∧ JsSet.has R (rooms d) = true.
Proof. intros H. apply (inv_membership _ (reachable_inv _ H)). Qed.

(** ** The membership invariant *)

(** C1. Take a connection whose rooms and subscriptions agree (a new
    connection, with no rooms and no subscriptions, is one). After any
    sequence of joins, leaves and closes on it, a room is in its rooms
    exactly when it is subscribed to the room's topic. Joining a room then
    puts the room in its rooms and the connection among the room's
    subscribers; leaving a room it is in then takes the room out of its
    rooms and the connection out of the room's subscribers. *)
Theorem rooms_agree_with_subscriptions ws (ops : list Op) s R :
  consistent ws s →
  let s' := state_of (perform_all ws ops s) in
  (JsSet.has R (rooms (data s')) = true
   ↔ ws ∈ Broadcaster.subscribers R (pubsub s'))
  ∧ (JsSet.has R (rooms (data (state_of (joinRoom ws R s')))) = true
     ∧ ws ∈ Broadcaster.subscribers R (pubsub (state_of (joinRoom ws R s'))))
  ∧ (JsSet.has R (rooms (data s')) = true →
     JsSet.has R (rooms (data (state_of (leaveRoom ws R s')))) = false
     ∧ ws ∉ Broadcaster.subscribers R
              (pubsub (state_of (leaveRoom ws R s')))).
Proof.
  intros Hc s'.
  assert (consistent ws s') as Hc'.
  { by apply (keeps_consistent _ _ _ (maintains_perform_all ws ops s)). }
  split_and!.
  - apply Hc'.
  - rewrite joinRoom_run. unfold state_of. simpl.
    rewrite has_add, String.eqb_refl. done.
  - rewrite joinRoom_run. unfold state_of. simpl.
    rewrite elem_of_subscribers_subscribe. by left.
  - intros Hhas. rewrite leaveRoom_run_present by done.
    unfold state_of. simpl. split.
    + by rewrite has_delete, String.eqb_refl.
    + rewrite elem_of_subscribers_unsubscribe. naive_solver.
Qed.

Lemma rooms_agree_with_subscriptions_witness :
  let s' := state_of (perform_all 7 [Join "a"; Join "b"; Leave "a"; Close;
                                     Join "c"; Leave "x"] (fresh "alice")) in
  (JsSet.has "c" (rooms (data s')) = true
   ↔ 7 ∈ Broadcaster.subscribers "c" (pubsub s'))
  ∧ (JsSet.has "b" (rooms (data s')) = true
     ↔ 7 ∈ Broadcaster.subscribers "b" (pubsub s')).
Proof.
  intros s'. split.
  - apply (rooms_agree_with_subscriptions 7 _ (fresh "alice") "c").
    apply consistent_fresh.
  - apply (rooms_agree_with_subscriptions 7 _ (fresh "alice") "b").
    apply consistent_fresh.
Defined.

(** ** Joining and leaving *)

(** C2. [joinRoom] subscribes the connection to the topic named after the
    room, adds the room to the connection's rooms, sends
    ["You have joined room: {room}"] to the connection and publishes
    ["{username} has joined the room"] to the room, in this order; the only
    other thing it does is write a line to the console between the second
    and the third. The state it leaves is the one these steps give. *)
Theorem joinRoom_effects_in_order ws R s :
  trace_of (joinRoom ws R s)
  = [ Subscribe ws R;
      RoomsAdd ws R;
      ConsoleLog ("User " +:+ username (data s) +:+ " joined room: " +:+ R);
      Send ws ("You have joined room: " +:+ R);
      Publish R (username (data s) +:+ " has joined the room") ]
  ∧ effects (trace_of (joinRoom ws R s))
    = [ Subscribe ws R;
        RoomsAdd ws R;
        Send ws ("You have joined room: " +:+ R);
        Publish R (username (data s) +:+ " has joined the room") ]
  ∧ pubsub (state_of (joinRoom ws R s))
    = Broadcaster.subscribe ws R (pubsub s)
  ∧ rooms (data (state_of (joinRoom ws R s))) = JsSet.add R (rooms (data s))
  ∧ username (data (state_of (joinRoom ws R s))) = username (data s).
Proof. rewrite joinRoom_run. by split_and!. Qed.

(** C3. [leaveRoom] for a room that is not in the connection's rooms sends
    ["You are not in room {room}"] to the connection and does nothing else:
    nothing is published, and neither the rooms of the connection nor any
    subscription changes. *)
Theorem leaveRoom_not_joined_is_noop ws R s :
  JsSet.has R (rooms (data s)) = false →
  trace_of (leaveRoom ws R s) = [ Send ws ("You are not in room " +:+ R) ]
  ∧ List.filter is_publish (trace_of (leaveRoom ws R s)) = []
  ∧ rooms (data (state_of (leaveRoom ws R s))) = rooms (data s)
  ∧ pubsub (state_of (leaveRoom ws R s)) = pubsub s
  ∧ state_of (leaveRoom ws R s) = s.
Proof. intros H. rewrite leaveRoom_run_absent by done. by split_and!. Qed.

Lemma leaveRoom_not_joined_is_noop_witness :
  JsSet.has "dev" ["lobby"] = false
  ∧ trace_of (leaveRoom 7 "dev"
                (mkCtx (mkData "alice" ["lobby"]) {["lobby" := {[7%nat]}]}))
    = [ Send 7 "You are not in room dev" ].
Proof.
  split; [reflexivity|].
  apply (leaveRoom_not_joined_is_noop 7 "dev"
           (mkCtx (mkData "alice" ["lobby"]) {["lobby" := {[7%nat]}]})).
  reflexivity.
Defined.

(** ** Messages to a room *)

(** C4. A [/room] command line with room name [R] and non-empty text [T]
    publishes ["[{room}] {username}: {text}"] to [R] exactly when [R] is in
    the connection's rooms; when it is not, the connection gets
    ["You are not in room {room}. Join it first with /join {room}"] and
    nothing is published. Either way the hook changes no state and, besides
    this one effect, only writes to the console. *)
Theorem room_message_needs_membership ws messageStr command args R T s :
  Js.startsWith messageStr "/" = true →
  Js.split " " (Js.slice1 messageStr) = command :: args →
  Js.toLowerCase command = "room" →
  args !! 0%nat = Some R → R ≠ "" →
  Js.join " " (Js.slice1_array args) = T → T ≠ "" →
  let published :=
    Publish R ("[" +:+ R +:+ "] " +:+ username (data s) +:+ ": " +:+ T) in
  trace_of (message ws messageStr s)
  = [ ConsoleLog ("Message from " +:+ username (data s) +:+ ": "
                  +:+ messageStr);
      ConsoleLog "Available rooms : [object Set]";
      if JsSet.has R (rooms (data s)) then published
      else Send ws ("You are not in room " +:+ R +:+
                    ". Join it first with /join " +:+ R) ]
  ∧ (In published (trace_of (message ws messageStr s))
     ↔ JsSet.has R (rooms (data s)) = true)
  ∧ (JsSet.has R (rooms (data s)) = false →
     List.filter is_publish (trace_of (message ws messageStr s)) = [])
  ∧ state_of (message ws messageStr s) = s.
Proof.
  intros Hstart Hsplit Hcmd HR HRne HT HTne published.
  assert (message ws messageStr s
          = (tt, s,
             [ ConsoleLog ("Message from " +:+ username (data s) +:+ ": "
                           +:+ messageStr);
               ConsoleLog "Available rooms : [object Set]";
               if JsSet.has R (rooms (data s)) then published
               else Send ws ("You are not in room " +:+ R +:+
                             ". Join it first with /join " +:+ R) ])) as ->.
  { unfold message. rewrite Hstart, Hsplit. cbv zeta.
    rewrite Hcmd, HR, HT. simpl.
    apply String.eqb_neq in HRne, HTne.
    unfold Js.falsy_str. rewrite HRne, HTne. simpl.
    step_handler. by destruct (JsSet.has R (rooms (data s))). }
  unfold trace_of, state_of. simpl.
  split_and!; [done | | | done].
  - destruct (JsSet.has R (rooms (data s))); subst published; simpl.
    + split; auto.
    + split; [|done]. intros [|[|[|[]]]]; done.
  - intros ->. done.
Qed.

Lemma room_message_needs_membership_witness :
  trace_of (message 8 "/room lobby hi  there" (in_lobby 8 "bob"))
  = [ ConsoleLog "Message from bob: /room lobby hi  there";
      ConsoleLog "Available rooms : [object Set]";
      Publish "lobby" "[lobby] bob: hi  there" ]
  ∧ trace_of (message 8 "/room dev hi" (in_lobby 8 "bob"))
    = [ ConsoleLog "Message from bob: /room dev hi";
        ConsoleLog "Available rooms : [object Set]";
        Send 8 "You are not in room dev. Join it first with /join dev" ].
Proof.
  split.
  - exact (proj1 (room_message_needs_membership 8 "/room lobby hi  there"
                    "room" ["lobby"; "hi"; ""; "there"] "lobby" "hi  there"
                    (in_lobby 8 "bob") eq_refl eq_refl eq_refl eq_refl
                    ltac:(discriminate) eq_refl ltac:(discriminate))).
  - exact (proj1 (room_message_needs_membership 8 "/room dev hi"
                    "room" ["dev"; "hi"] "dev" "hi"
                    (in_lobby 8 "bob") eq_refl eq_refl eq_refl eq_refl
                    ltac:(discriminate) eq_refl ltac:(discriminate))).
Defined.

(** ** Disconnecting *)

(** C5. The [close] hook goes through the rooms of the connection in the
    order they were joined and, for each, publishes
    ["{username} has left the room (disconnected)"] to the room and then
    unsubscribes the connection from it; then it empties the rooms of the
    connection. It sends nothing to the connection itself, and afterwards the
    connection is subscribed to none of the rooms it was in. *)
Theorem close_leaves_every_room ws s :
  trace_of (close ws s)
  = ConsoleLog ("User " +:+ username (data s) +:+ " disconnected")
    :: flat_map
         (fun Ri =>
            [ Publish Ri (username (data s)
                          +:+ " has left the room (disconnected)");
              Unsubscribe ws Ri ])
         (rooms (data s))
    ++ [ RoomsClear ws ]
  ∧ rooms (data (state_of (close ws s))) = []
  ∧ (∀ Ri, Ri ∈ rooms (data s) →
       ws ∉ Broadcaster.subscribers Ri (pubsub (state_of (close ws s))))
  ∧ List.filter is_send (trace_of (close ws s)) = [].
Proof.
  rewrite close_run. unfold trace_of, state_of. simpl. split_and!.
  - done.
  - done.
  - intros Ri Hin. rewrite elem_of_subscribers_unsubscribe_all. naive_solver.
  - rewrite List.filter_app, close_events_no_send. done.
Qed.

(** ** The command line *)

(** C6, as stated, fails: the code cuts the line at single spaces only. A
    tab does not end the command name, so ["/join<TAB>lobby"] is the unknown
    command ["join<TAB>lobby"] and not [join] with argument [lobby]; and two
    spaces in a row give an empty argument, so ["/join  lobby"] is a [/join]
    without a room name. *)
Lemma command_line_is_not_cut_at_whitespace :
  let with_tab := "/join" +:+ tab +:+ "lobby" in
  let two_spaces := "/join  lobby" in
  (Js.startsWith with_tab "/" = true
   ∧ spec_command_line with_tab = (Some "join", ["lobby"])
   ∧ command_line with_tab = (Some ("join" +:+ tab +:+ "lobby"), [])
   ∧ command_line with_tab ≠ spec_command_line with_tab
   ∧ trace_of (message 7 with_tab (fresh "alice"))
     = [ ConsoleLog ("Message from alice: " +:+ with_tab);
         Send 7 ("Unknown command: join" +:+ tab +:+ "lobby" +:+
           ". Available commands: /join, /leave, /room, /rooms, /myrooms") ])
  ∧ (Js.startsWith two_spaces "/" = true
     ∧ spec_command_line two_spaces = (Some "join", ["lobby"])
     ∧ command_line two_spaces = (Some "join", [""; "lobby"])
     ∧ command_line two_spaces ≠ spec_command_line two_spaces
     ∧ trace_of (message 7 two_spaces (fresh "alice"))
       = [ ConsoleLog "Message from alice: /join  lobby";
           Send 7 "Please specify a room name: /join [room]" ]).
Proof. cbv zeta. split_and!; by vm_compute. Qed.

(** The dispatch of [message] looks at the command only through its lower
    case: for a known command, the line with the command as typed and the
    line with the command in lower case have the same effects (the console
    line quotes the message and differs). *)
Lemma message_case_insensitive ws command rest s :
  includes " " command = false →
  is_known (Js.toLowerCase command) = true →
  state_of (message ws ("/" +:+ command +:+ " " +:+ rest) s)
  = state_of (message ws ("/" +:+ Js.toLowerCase command +:+ " " +:+ rest) s)
  ∧ effects (trace_of (message ws ("/" +:+ command +:+ " " +:+ rest) s))
    = effects (trace_of
        (message ws ("/" +:+ Js.toLowerCase command +:+ " " +:+ rest) s)).
Proof.
  intros Hsp Hknown. unfold message. rewrite !log_then.
  rewrite !split_command_line
    by (by rewrite ?includes_space_toLowerCase).
  cbv zeta. rewrite toLowerCase_idem.
  unfold state_of at 1 3, trace_of at 1 3. simpl.
  unfold is_known, known_commands in Hknown. simpl in Hknown.
  repeat match goal with
  | |- context [String.eqb (Js.toLowerCase command) ?c] =>
      destruct (String.eqb (Js.toLowerCase command) c) eqn:?
  end; try done.
Qed.

(** What [message] does with the pieces of a command line. *)

Lemma command_line_pieces command rest :
  includes " " command = false →
  Js.startsWith ("/" +:+ command) "/" = true
  ∧ Js.split " " (Js.slice1 ("/" +:+ command)) = [command]
  ∧ Js.startsWith ("/" +:+ command +:+ " " +:+ rest) "/" = true
  ∧ Js.split " " (Js.slice1 ("/" +:+ command +:+ " " +:+ rest))
    = command :: Js.split " " rest.
Proof.
  intros Hc. split_and!; [done | | done |].
  - simpl. by apply split_no_sep.
  - by apply split_command_line.
Qed.

Lemma message_unknown_run ws messageStr command args s :
  Js.startsWith messageStr "/" = true →
  Js.split " " (Js.slice1 messageStr) = command :: args →
  is_known (Js.toLowerCase command) = false →
  message ws messageStr s
  = (tt, s,
     [ ConsoleLog ("Message from " +:+ username (data s) +:+ ": "
                   +:+ messageStr);
       Send ws ("Unknown command: " +:+ command +:+
         ". Available commands: /join, /leave, /room, /rooms, /myrooms") ]).
Proof.
  intros Hstart Hsplit. unfold message. rewrite log_then, Hstart, Hsplit.
  cbv zeta. unfold is_known, known_commands. simpl.
  rewrite !orb_false_iff. by intros (-> & -> & -> & -> & -> & _).
Qed.

Lemma message_join_run ws messageStr command args R s :
  Js.startsWith messageStr "/" = true →
  Js.split " " (Js.slice1 messageStr) = command :: args →
  Js.toLowerCase command = "join" →
  args !! 0%nat = Some R → R ≠ "" →
  state_of (message ws messageStr s) = state_of (joinRoom ws R s)
  ∧ trace_of (message ws messageStr s)
    = ConsoleLog ("Message from " +:+ username (data s) +:+ ": "
                  +:+ messageStr)
      :: trace_of (joinRoom ws R s).
Proof.
  intros Hstart Hsplit Hcmd HR HRne.
  unfold message. rewrite log_then, Hstart, Hsplit.
  cbv zeta. rewrite Hcmd, HR. unfold Js.falsy, str.
  apply String.eqb_neq in HRne. by rewrite HRne.
Qed.

Lemma message_join_missing_run ws messageStr command args s :
  Js.startsWith messageStr "/" = true →
  Js.split " " (Js.slice1 messageStr) = command :: args →
  Js.toLowerCase command = "join" →
  Js.falsy (args !! 0%nat) = true →
  message ws messageStr s
  = (tt, s,
     [ ConsoleLog ("Message from " +:+ username (data s) +:+ ": "
                   +:+ messageStr);
       Send ws "Please specify a room name: /join [room]" ]).
Proof.
  intros Hstart Hsplit Hcmd Hf.
  unfold message. rewrite log_then, Hstart, Hsplit.
  cbv zeta. by rewrite Hcmd, Hf.
Qed.

Lemma message_room_run ws messageStr command args R T s :
  Js.startsWith messageStr "/" = true →
  Js.split " " (Js.slice1 messageStr) = command :: args →
  Js.toLowerCase command = "room" →
  args !! 0%nat = Some R → R ≠ "" →
  Js.join " " (Js.slice1_array args) = T → T ≠ "" →
  message ws messageStr s
  = (tt, s,
     [ ConsoleLog ("Message from " +:+ username (data s) +:+ ": "
                   +:+ messageStr);
       ConsoleLog "Available rooms : [object Set]";
       if JsSet.has R (rooms (data s))
       then Publish R ("[" +:+ R +:+ "] " +:+ username (data s) +:+ ": "
                       +:+ T)
       else Send ws ("You are not in room " +:+ R +:+
                     ". Join it first with /join " +:+ R) ]).
Proof.
  intros Hstart Hsplit Hcmd HR HRne HT HTne.
  unfold message. rewrite Hstart, Hsplit. cbv zeta.
  rewrite Hcmd, HR, HT. simpl.
  apply String.eqb_neq in HRne, HTne.
  unfold Js.falsy_str. rewrite HRne, HTne. simpl.
  step_handler. by destruct (JsSet.has R (rooms (data s))).
Qed.

(** C6, amended. The [message] hook cuts the text after the leading ["/"]
    at every single space and nowhere else. The command name is the first
    piece, that is everything up to the first space (a tab or a line feed
    does not end it), and it is matched without regard to case: a name that
    is none of the five gets the unknown-command reply quoting it as typed,
    and a name that lowers to [join] joins. The other pieces are the
    arguments: the first argument of [/join] is the text up to the next
    space, what follows it is ignored, and two spaces in a row give an empty
    argument, which [/join] treats as a missing room name. For [/room] the
    first argument is the room name and the message body is the text after
    the space that follows the room name, unchanged, whatever spaces or
    other white space it holds. None of the pieces contains a space, and
    gluing them with single spaces gives the text back. *)
Theorem command_line_is_cut_at_spaces ws command R T s :
  includes " " command = false →
  includes " " R = false →
  let messageStr := "/" +:+ command +:+ " " +:+ R +:+ " " +:+ T in
  let logged text :=
    ConsoleLog ("Message from " +:+ username (data s) +:+ ": " +:+ text) in
  command_line ("/" +:+ command) = (Some command, [])
  ∧ (∀ rest, command_line ("/" +:+ command +:+ " " +:+ rest)
             = (Some command, Js.split " " rest))
  ∧ command_line messageStr = (Some command, R :: Js.split " " T)
  ∧ Js.join " " (Js.slice1_array (R :: Js.split " " T)) = T
  ∧ (∀ text, ∃ c a,
       Js.split " " (Js.slice1 text) = c :: a
       ∧ command_line text = (Some c, a)
       ∧ Forall (fun t => includes " " t = false) (c :: a)
       ∧ Js.join " " (c :: a) = Js.slice1 text)
  ∧ (is_known (Js.toLowerCase command) = true →
     state_of (message ws messageStr s)
     = state_of (message ws ("/" +:+ Js.toLowerCase command +:+ " " +:+ R
                             +:+ " " +:+ T) s)
     ∧ effects (trace_of (message ws messageStr s))
       = effects (trace_of
           (message ws ("/" +:+ Js.toLowerCase command +:+ " " +:+ R
                        +:+ " " +:+ T) s)))
  ∧ (is_known (Js.toLowerCase command) = false →
     ∀ text,
       text = "/" +:+ command
       ∨ (∃ rest, text = "/" +:+ command +:+ " " +:+ rest) →
       message ws text s
       = (tt, s,
          [ logged text;
            Send ws ("Unknown command: " +:+ command +:+
              ". Available commands: /join, /leave, /room, /rooms, /myrooms")
          ]))
  ∧ (Js.toLowerCase command = "join" → R ≠ "" →
     ∀ text,
       text = "/" +:+ command +:+ " " +:+ R
       ∨ (∃ rest, text = "/" +:+ command +:+ " " +:+ R +:+ " " +:+ rest) →
       state_of (message ws text s) = state_of (joinRoom ws R s)
       ∧ trace_of (message ws text s)
         = logged text :: trace_of (joinRoom ws R s))
  ∧ (Js.toLowerCase command = "join" →
     ∀ rest,
       message ws ("/" +:+ command +:+ " " +:+ " " +:+ rest) s
       = (tt, s,
          [ logged ("/" +:+ command +:+ " " +:+ " " +:+ rest);
            Send ws "Please specify a room name: /join [room]" ]))
  ∧ (Js.toLowerCase command = "room" → R ≠ "" → T ≠ "" →
     message ws messageStr s
     = (tt, s,
        [ logged messageStr;
          ConsoleLog "Available rooms : [object Set]";
          if JsSet.has R (rooms (data s))
          then Publish R ("[" +:+ R +:+ "] " +:+ username (data s) +:+ ": "
                          +:+ T)
          else Send ws ("You are not in room " +:+ R +:+
                        ". Join it first with /join " +:+ R) ])).
Proof.
  intros Hc HR messageStr logged. subst messageStr logged. cbv beta.
  assert (Js.split " " (R +:+ " " +:+ T) = R :: Js.split " " T) as HRT.
  { change (R +:+ " " +:+ T) with (R +:+ String " " T).
    by apply (split_app " "). }
  split_and!.
  - unfold command_line. simpl. by rewrite split_no_sep.
  - intros rest. unfold command_line.
    by rewrite split_command_line.
  - unfold command_line. rewrite split_command_line by done.
    by rewrite HRT.
  - simpl. apply join_split.
  - intros text. unfold command_line.
    pose proof (split_pieces " " (Js.slice1 text)) as Hp.
    pose proof (join_split " " (Js.slice1 text)) as Hj.
    destruct (Js.split " " (Js.slice1 text)) as [|c a] eqn:Hs.
    + by apply split_nonempty in Hs.
    + by exists c, a.
  - intros Hk. by apply message_case_insensitive.
  - intros Hk text [->|[rest ->]].
    + destruct (command_line_pieces command "" Hc) as (Hs1 & Hs2 & _).
      by apply (message_unknown_run ws _ command []).
    + destruct (command_line_pieces command rest Hc) as (_ & _ & Hs1 & Hs2).
      by apply (message_unknown_run ws _ command (Js.split " " rest)).
  - intros Hj HRne text [->|[rest ->]].
    + destruct (command_line_pieces command R Hc) as (_ & _ & Hs1 & Hs2).
      apply (message_join_run ws _ command (Js.split " " R)); try done.
      by rewrite split_no_sep.
    + destruct (command_line_pieces command (R +:+ " " +:+ rest) Hc)
        as (_ & _ & Hs1 & Hs2).
      apply (message_join_run ws _ command (R :: Js.split " " rest));
        try done.
      rewrite Hs2. change (R +:+ " " +:+ rest) with (R +:+ String " " rest).
      by rewrite (split_app " ").
  - intros Hj rest.
    destruct (command_line_pieces command (" " +:+ rest) Hc)
      as (_ & _ & Hs1 & Hs2).
    by apply (message_join_missing_run ws _ command
                ("" :: Js.split " " rest)).
  - intros Hr HRne HTne.
    destruct (command_line_pieces command (R +:+ " " +:+ T) Hc)
      as (_ & _ & Hs1 & Hs2).
    apply (message_room_run ws _ command (R :: Js.split " " T));
      try done.
    + by rewrite Hs2, HRT.
    + simpl. apply join_split.
Qed.

Lemma command_line_is_cut_at_spaces_witness :
  includes " " "ROOM" = false
  ∧ includes " " "lobby" = false
  ∧ command_line "/ROOM lobby hi  there"
    = (Some "ROOM", ["lobby"; "hi"; ""; "there"])
  ∧ Js.join " " (Js.slice1_array ["lobby"; "hi"; ""; "there"]) = "hi  there"
  ∧ message 7 "/ROOM lobby hi  there" (in_lobby 7 "alice")
    = (tt, in_lobby 7 "alice",
       [ ConsoleLog "Message from alice: /ROOM lobby hi  there";
         ConsoleLog "Available rooms : [object Set]";
         Publish "lobby" "[lobby] alice: hi  there" ])
  ∧ includes " " ("join" +:+ tab +:+ "lobby") = false
  ∧ message 7 ("/join" +:+ tab +:+ "lobby" +:+ " now") (fresh "alice")
    = (tt, fresh "alice",
       [ ConsoleLog ("Message from alice: /join" +:+ tab +:+ "lobby now");
         Send 7 ("Unknown command: join" +:+ tab +:+ "lobby" +:+
           ". Available commands: /join, /leave, /room, /rooms, /myrooms") ]).
Proof.
  pose proof (command_line_is_cut_at_spaces 7 "ROOM" "lobby" "hi  there"
                (in_lobby 7 "alice") eq_refl eq_refl)
    as (_ & _ & H3 & H4 & _ & _ & _ & _ & _ & H10).
  pose proof (command_line_is_cut_at_spaces 7 ("join" +:+ tab +:+ "lobby")
                "x" "y" (fresh "alice") eq_refl eq_refl)
    as (_ & _ & _ & _ & _ & _ & H7 & _).
  split_and!; [reflexivity | reflexivity | exact H3 | exact H4 | |
               reflexivity |].
  - apply H10; [reflexivity | intros H; discriminate H
               | intros H; discriminate H].
  - apply (H7 eq_refl). right. by exists "now".
Defined.

(** ** Joining twice *)

(** C7. Joining a room the connection is already in changes neither the
    rooms of the connection nor the topic table, and still sends the
    confirmation and publishes the announcement again. A connection that
    has joined the room has it in its rooms and is subscribed to its topic
    (the two go together in every state the server reaches). *)
Theorem joinRoom_again_repeats_messages ws R s :
  JsSet.has R (rooms (data s)) = true →
  Broadcaster.isSubscribed ws R (pubsub s) = true →
  state_of (joinRoom ws R s) = s
  ∧ effects (trace_of (joinRoom ws R s))
    = [ Subscribe ws R;
        RoomsAdd ws R;
        Send ws ("You have joined room: " +:+ R);
        Publish R (username (data s) +:+ " has joined the room") ]
  ∧ List.filter is_send (trace_of (joinRoom ws R s))
    = [ Send ws ("You have joined room: " +:+ R) ]
  ∧ List.filter is_publish (trace_of (joinRoom ws R s))
    = [ Publish R (username (data s) +:+ " has joined the room") ].
Proof.
  intros Hhas Hsub. rewrite joinRoom_run. split_and!; try done.
  unfold state_of. simpl.
  rewrite add_has by done.
  rewrite subscribe_idem by (by apply isSubscribed_elem_of).
  apply ctx_eta.
Qed.

Lemma joinRoom_again_repeats_messages_witness :
  let s := mkCtx (mkData "alice" ["lobby"]) {["lobby" := {[7%nat]}]} in
  JsSet.has "lobby" (rooms (data s)) = true
  ∧ Broadcaster.isSubscribed 7 "lobby" (pubsub s) = true
  ∧ state_of (joinRoom 7 "lobby" s) = s
  ∧ List.filter is_send (trace_of (joinRoom 7 "lobby" s))
    = [ Send 7 "You have joined room: lobby" ]
  ∧ List.filter is_publish (trace_of (joinRoom 7 "lobby" s))
    = [ Publish "lobby" "alice has joined the room" ].
Proof.
  intros s.
  pose proof (joinRoom_again_repeats_messages 7 "lobby" s eq_refl eq_refl)
    as (H1 & _ & H3 & H4).
  split_and!; [reflexivity | reflexivity | exact H1 | exact H3 | exact H4].
Defined.

(** ** Commands with invalid input *)

(** C8. A command line with invalid input gets exactly one reply and
    changes no state: [/join] and [/leave] without a room name, [/room]
    without a room name or with an empty message, and a command that is
    none of the five known ones each get their fixed reply (the last one
    quoting the command as typed); besides the reply the hook only logs the
    incoming message. *)
Theorem invalid_command_is_answered ws messageStr command args s :
  Js.startsWith messageStr "/" = true →
  Js.split " " (Js.slice1 messageStr) = command :: args →
  let replies text :=
    state_of (message ws messageStr s) = s
    ∧ trace_of (message ws messageStr s)
      = [ ConsoleLog ("Message from " +:+ username (data s) +:+ ": "
                      +:+ messageStr);
          Send ws text ] in
  (Js.toLowerCase command = "join" → Js.falsy (args !! 0%nat) = true →
   replies "Please specify a room name: /join [room]")
  ∧ (Js.toLowerCase command = "leave" → Js.falsy (args !! 0%nat) = true →
     replies "Please specify a room name: /leave [room]")
  ∧ (Js.toLowerCase command = "room" →
     Js.falsy (args !! 0%nat) = true
     ∨ Js.join " " (Js.slice1_array args) = "" →
     replies "Please specify a room name and message: /room [room] [message]")
  ∧ (is_known (Js.toLowerCase command) = false →
     replies ("Unknown command: " +:+ command +:+
       ". Available commands: /join, /leave, /room, /rooms, /myrooms")).
Proof.
  intros Hstart Hsplit replies. subst replies. cbv beta.
  unfold message. rewrite Hstart, Hsplit. cbv zeta.
  split_and!.
  - intros -> Hf. rewrite Hf. step_handler. done.
  - intros -> Hf. rewrite Hf. step_handler. done.
  - intros -> Hf.
    assert (Js.falsy (args !! 0%nat)
            || Js.falsy_str (Js.join " " (Js.slice1_array args)) = true)
      as ->.
    { destruct Hf as [-> | ->]; [done | by rewrite orb_true_r]. }
    step_handler. done.
  - unfold is_known, known_commands. simpl.
    rewrite !orb_false_iff. intros (-> & -> & -> & -> & -> & _).
    step_handler. done.
Qed.

Lemma invalid_command_is_answered_witness :
  trace_of (message 7 "/JOIN" (fresh "alice"))
  = [ ConsoleLog "Message from alice: /JOIN";
      Send 7 "Please specify a room name: /join [room]" ]
  ∧ trace_of (message 7 "/leave " (fresh "alice"))
    = [ ConsoleLog "Message from alice: /leave ";
        Send 7 "Please specify a room name: /leave [room]" ]
  ∧ trace_of (message 7 "/room lobby" (fresh "alice"))
    = [ ConsoleLog "Message from alice: /room lobby";
        Send 7
          "Please specify a room name and message: /room [room] [message]" ]
  ∧ trace_of (message 7 "/Dance now" (fresh "alice"))
    = [ ConsoleLog "Message from alice: /Dance now";
        Send 7 ("Unknown command: Dance" +:+
          ". Available commands: /join, /leave, /room, /rooms, /myrooms") ].
Proof.
  split_and!.
  - apply (invalid_command_is_answered 7 "/JOIN" "JOIN" [] (fresh "alice")
             eq_refl eq_refl); reflexivity.
  - apply (invalid_command_is_answered 7 "/leave " "leave" [""]
             (fresh "alice") eq_refl eq_refl); reflexivity.
  - apply (invalid_command_is_answered 7 "/room lobby" "room" ["lobby"]
             (fresh "alice") eq_refl eq_refl); [reflexivity | by right].
  - apply (invalid_command_is_answered 7 "/Dance now" "Dance" ["now"]
             (fresh "alice") eq_refl eq_refl); reflexivity.
Defined.

(** ** Plain messages *)

(** C9. A message that does not begin with ["/"] is echoed to its sender
    with the user name in front, whatever rooms the sender is in: the hook
    logs the message, sends ["{username}: {message}"] to the sender, publishes
    nothing and changes no state. *)
Theorem plain_message_is_echoed_to_sender ws messageStr s :
  Js.startsWith messageStr "/" = false →
  state_of (message ws messageStr s) = s
  ∧ trace_of (message ws messageStr s)
    = [ ConsoleLog ("Message from " +:+ username (data s) +:+ ": "
                    +:+ messageStr);
        Send ws (username (data s) +:+ ": " +:+ messageStr) ]
  ∧ List.filter is_publish (trace_of (message ws messageStr s)) = [].
Proof.
  intros Hstart. unfold message. rewrite Hstart. step_handler. done.
Qed.

Lemma plain_message_is_echoed_to_sender_witness :
  trace_of (message 7 "hello"
              (mkCtx (mkData "alice" ["lobby"]) {["lobby" := {[7%nat]}]}))
  = [ ConsoleLog "Message from alice: hello"; Send 7 "alice: hello" ].
Proof.
  apply (plain_message_is_echoed_to_sender 7 "hello"). reflexivity.
Defined.

(** ** User names *)

(** C10. A request whose [username] parameter is the empty string gets the
    user name ["Anonymous"], the same as a request without the parameter;
    [getUsernameFromReq] never returns the empty string, and no connection
    of a state the server reaches has an empty user name. *)
Theorem empty_username_is_anonymous req :
  searchParams_get "username" (searchParams req) = Some "" →
  getUsernameFromReq req = "Anonymous"
  ∧ getUsernameFromReq req = getUsernameFromReq (mkRequest (pathname req) [])
  ∧ (∀ req', getUsernameFromReq req' ≠ "")
  ∧ (∀ srv ws d, reachable srv → sockets srv !! ws = Some d →
       username d ≠ "").
Proof.
  intros Hget. unfold getUsernameFromReq at 1 2. rewrite Hget.
  split_and!; [done | done | apply getUsernameFromReq_nonempty |].
  intros srv ws d Hr. apply (inv_username _ (reachable_inv _ Hr)).
Qed.

Lemma empty_username_is_anonymous_witness :
  searchParams_get "username" [("room", "lobby"); ("username", "")] = Some ""
  ∧ getUsernameFromReq
      (mkRequest "/chat" [("room", "lobby"); ("username", "")])
    = "Anonymous".
Proof.
  split; [reflexivity|].
  apply (empty_username_is_anonymous
           (mkRequest "/chat" [("room", "lobby"); ("username", "")])).
  reflexivity.
Defined.

(** * Further properties of the handlers *)

(** ** Leaving a room *)

(** [leaveRoom] for a room the connection is in unsubscribes it from the
    topic, removes the room from its rooms, sends
    ["You have left room: {room}"] to it and publishes
    ["{username} has left the room"] to the room, in this order, with a
    console line between the second and the third. The connection is
    unsubscribed before the announcement is published, so it is not among
    the subscribers of the room the announcement goes to. *)
Theorem leaveRoom_effects_in_order ws R s :
  JsSet.has R (rooms (data s)) = true →
  trace_of (leaveRoom ws R s)
  = [ Unsubscribe ws R;
      RoomsDelete ws R;
      ConsoleLog ("User " +:+ username (data s) +:+ " left room: " +:+ R);
      Send ws ("You have left room: " +:+ R);
      Publish R (username (data s) +:+ " has left the room") ]
  ∧ pubsub (state_of (leaveRoom ws R s))
    = Broadcaster.unsubscribe ws R (pubsub s)
  ∧ rooms (data (state_of (leaveRoom ws R s)))
    = JsSet.delete R (rooms (data s))
  ∧ username (data (state_of (leaveRoom ws R s))) = username (data s)
  ∧ ws ∉ Broadcaster.subscribers R (pubsub (state_of (leaveRoom ws R s))).
Proof.
  intros Hhas. rewrite leaveRoom_run_present by done.
  unfold trace_of, state_of. simpl. split_and!; try done.
  rewrite elem_of_subscribers_unsubscribe. naive_solver.
Qed.

Lemma leaveRoom_effects_in_order_witness :
  JsSet.has "lobby" (rooms (data (in_lobby 7 "alice"))) = true
  ∧ trace_of (leaveRoom 7 "lobby" (in_lobby 7 "alice"))
    = [ Unsubscribe 7 "lobby";
        RoomsDelete 7 "lobby";
        ConsoleLog "User alice left room: lobby";
        Send 7 "You have left room: lobby";
        Publish "lobby" "alice has left the room" ].
Proof.
  split; [reflexivity|].
  exact (proj1 (leaveRoom_effects_in_order 7 "lobby" (in_lobby 7 "alice")
                  eq_refl)).
Defined.

Lemma delete_add_absent R rs :
  JsSet.has R rs = false → JsSet.delete R (JsSet.add R rs) = rs.
Proof.
  intros Hhas. unfold JsSet.add. rewrite Hhas. unfold JsSet.delete.
  rewrite List.filter_app. simpl. rewrite String.eqb_refl. simpl.
  rewrite app_nil_r. induction rs as [|x rs IH]; simpl in *; [done|].
  apply orb_false_elim in Hhas as [Hx Hrs]. rewrite Hx. simpl.
  by rewrite IH.
Qed.

(** Joining a room the connection is not in and then leaving it gives back
    the rooms of the connection as they were, in the same order; the
    connection is not subscribed to the room afterwards, and every other
    subscription, of this or any other connection, is as before. *)
Theorem join_then_leave_restores ws R s :
  JsSet.has R (rooms (data s)) = false →
  let s1 := state_of (joinRoom ws R s) in
  let s2 := state_of (leaveRoom ws R s1) in
  data s2 = data s
  ∧ (ws ∉ Broadcaster.subscribers R (pubsub s2))
  ∧ (∀ ws' R', ws' ≠ ws ∨ R' ≠ R →
       ws' ∈ Broadcaster.subscribers R' (pubsub s2)
       ↔ ws' ∈ Broadcaster.subscribers R' (pubsub s))
  ∧ List.filter is_send (trace_of (leaveRoom ws R s1))
    = [ Send ws ("You have left room: " +:+ R) ].
Proof.
  intros Hhas s1 s2. subst s2 s1. rewrite joinRoom_run.
  unfold state_of at 2 4 6 7. simpl.
  rewrite leaveRoom_run_present
    by (simpl; by rewrite has_add, String.eqb_refl).
  unfold state_of, trace_of. simpl. split_and!.
  - rewrite delete_add_absent by done. by destruct s as [[u r] b].
  - rewrite elem_of_subscribers_unsubscribe. naive_solver.
  - intros ws' R' Hne.
    rewrite elem_of_subscribers_unsubscribe, elem_of_subscribers_subscribe.
    naive_solver.
  - done.
Qed.

Lemma join_then_leave_restores_witness :
  JsSet.has "dev" (rooms (data (in_lobby 7 "alice"))) = false
  ∧ data (state_of (leaveRoom 7 "dev"
            (state_of (joinRoom 7 "dev" (in_lobby 7 "alice")))))
    = data (in_lobby 7 "alice").
Proof.
  split; [reflexivity|].
  exact (proj1 (join_then_leave_restores 7 "dev" (in_lobby 7 "alice")
                  eq_refl)).
Defined.

(** Joining or leaving a room leaves the connection's membership of, and
    its subscription to, every other room as it was. *)
Theorem room_operations_leave_other_rooms ws R R' s :
  R' ≠ R →
  (JsSet.has R' (rooms (data (state_of (joinRoom ws R s))))
   = JsSet.has R' (rooms (data s))
   ∧ Broadcaster.subscribers R' (pubsub (state_of (joinRoom ws R s)))
     = Broadcaster.subscribers R' (pubsub s))
  ∧ (JsSet.has R' (rooms (data (state_of (leaveRoom ws R s))))
     = JsSet.has R' (rooms (data s))
     ∧ Broadcaster.subscribers R' (pubsub (state_of (leaveRoom ws R s)))
       = Broadcaster.subscribers R' (pubsub s)).
Proof.
  intros Hne. split.
  - rewrite joinRoom_run. unfold state_of. simpl. split.
    + rewrite has_add. by apply String.eqb_neq in Hne as ->.
    + rewrite subscribers_subscribe. by case_decide.
  - destruct (JsSet.has R (rooms (data s))) eqn:Hhas.
    + rewrite leaveRoom_run_present by done. unfold state_of. simpl. split.
      * rewrite has_delete. by apply String.eqb_neq in Hne as ->.
      * rewrite subscribers_unsubscribe. by case_decide.
    + by rewrite leaveRoom_run_absent.
Qed.

Lemma room_operations_leave_other_rooms_witness :
  "lobby" ≠ "dev"
  ∧ JsSet.has "lobby"
      (rooms (data (state_of (leaveRoom 7 "dev"
         (state_of (joinRoom 7 "dev" (in_lobby 7 "alice")))))))
    = true.
Proof.
  split; [discriminate|].
  rewrite (proj1 (proj2 (room_operations_leave_other_rooms 7 "dev" "lobby"
             (state_of (joinRoom 7 "dev" (in_lobby 7 "alice")))
             ltac:(discriminate)))).
  rewrite (proj1 (proj1 (room_operations_leave_other_rooms 7 "dev" "lobby"
             (in_lobby 7 "alice") ltac:(discriminate)))).
  reflexivity.
Defined.

(** ** Closing, again *)

Lemma consistent_in_lobby ws u : consistent ws (in_lobby ws u).
Proof.
  intros R. unfold in_lobby, Broadcaster.subscribers. simpl.
  rewrite orb_false_r, String.eqb_eq.
  destruct (decide (R = "lobby")) as [->|Hne].
  - rewrite lookup_singleton_eq. simpl. set_solver.
  - rewrite lookup_singleton_ne by done. simpl. set_solver.
Qed.

(** After [close], a connection whose rooms and subscriptions agreed is
    subscribed to no topic at all, and the subscriptions of the other
    connections are as before. A second [close] finds no room: it publishes
    nothing and leaves the state as it is. *)
Theorem close_ends_every_subscription ws s :
  consistent ws s →
  let s' := state_of (close ws s) in
  (∀ R, ws ∉ Broadcaster.subscribers R (pubsub s'))
  ∧ (∀ ws' R, ws' ≠ ws →
       ws' ∈ Broadcaster.subscribers R (pubsub s')
       ↔ ws' ∈ Broadcaster.subscribers R (pubsub s))
  ∧ trace_of (close ws s')
    = [ ConsoleLog ("User " +:+ username (data s) +:+ " disconnected");
        RoomsClear ws ]
  ∧ state_of (close ws s') = s'.
Proof.
  intros Hc s'. subst s'.
  pose proof (maintains_close ws s) as [Hu Hc' _ Ho].
  specialize (Hc' Hc). revert Hu Hc' Ho.
  rewrite !close_run. unfold state_of, trace_of. simpl.
  intros _ Hc' Ho. split_and!; try done.
  intros R HR. apply Hc' in HR. done.
Qed.

Lemma close_ends_every_subscription_witness :
  7 ∉ Broadcaster.subscribers "lobby"
        (pubsub (state_of (close 7 (in_lobby 7 "alice")))).
Proof.
  exact (proj1 (close_ends_every_subscription 7 (in_lobby 7 "alice")
                  (consistent_in_lobby 7 "alice")) "lobby").
Defined.

(** ** More about the [message] hook *)

(** Only [/join] and [/leave] change anything: a message that is not a
    command line, or whose command is neither of the two, leaves the rooms
    of the connection and the topic table as they are. *)
Theorem only_join_and_leave_change_state ws messageStr command args s :
  Js.split " " (Js.slice1 messageStr) = command :: args →
  Js.startsWith messageStr "/" = false
  ∨ (Js.toLowerCase command ≠ "join" ∧ Js.toLowerCase command ≠ "leave") →
  state_of (message ws messageStr s) = s.
Proof.
  intros Hsplit Hcase. unfold message. rewrite log_then, Hsplit.
  unfold state_of at 1. simpl.
  destruct (Js.startsWith messageStr "/"); [|done].
  destruct Hcase as [|[Hj Hl]]; [done|].
  apply String.eqb_neq in Hj, Hl. cbv zeta. rewrite Hj, Hl.
  repeat case_match; step_handler; try done.
  all: repeat match goal with
       | |- context [if ?b then _ else _] => destruct b
       end; done.
Qed.

Lemma only_join_and_leave_change_state_witness :
  state_of (message 7 "/room lobby hello" (in_lobby 7 "alice"))
  = in_lobby 7 "alice"
  ∧ state_of (message 7 "join lobby" (in_lobby 7 "alice"))
    = in_lobby 7 "alice".
Proof.
  split.
  - refine (only_join_and_leave_change_state 7 "/room lobby hello" "room"
              ["lobby"; "hello"] (in_lobby 7 "alice") eq_refl _).
    right. split; intros H; vm_compute in H; discriminate H.
  - exact (only_join_and_leave_change_state 7 "join lobby" "oin"
             ["lobby"] (in_lobby 7 "alice") eq_refl (or_introl eq_refl)).
Defined.

(** A [/join] or [/leave] line with a room name does what [joinRoom] or
    [leaveRoom] does for the first argument, after logging the message; any
    further arguments are ignored. *)
Theorem join_and_leave_use_first_argument ws messageStr command args R s :
  Js.startsWith messageStr "/" = true →
  Js.split " " (Js.slice1 messageStr) = command :: args →
  args !! 0%nat = Some R → R ≠ "" →
  let logged :=
    ConsoleLog ("Message from " +:+ username (data s) +:+ ": "
                +:+ messageStr) in
  (Js.toLowerCase command = "join" →
   state_of (message ws messageStr s) = state_of (joinRoom ws R s)
   ∧ trace_of (message ws messageStr s)
     = logged :: trace_of (joinRoom ws R s))
  ∧ (Js.toLowerCase command = "leave" →
     state_of (message ws messageStr s) = state_of (leaveRoom ws R s)
     ∧ trace_of (message ws messageStr s)
       = logged :: trace_of (leaveRoom ws R s)).
Proof.
  intros Hstart Hsplit HR HRne logged. subst logged.
  unfold message. rewrite log_then, Hstart, Hsplit.
  cbv zeta. rewrite HR. unfold Js.falsy, str.
  apply String.eqb_neq in HRne. rewrite HRne.
  split; intros ->; simpl; done.
Qed.

Lemma join_and_leave_use_first_argument_witness :
  trace_of (message 7 "/Join dev right now" (in_lobby 7 "alice"))
  = ConsoleLog "Message from alice: /Join dev right now"
    :: trace_of (joinRoom 7 "dev" (in_lobby 7 "alice")).
Proof.
  exact (proj2 (proj1 (join_and_leave_use_first_argument 7
           "/Join dev right now" "Join" ["dev"; "right"; "now"] "dev"
           (in_lobby 7 "alice") eq_refl eq_refl eq_refl
           ltac:(discriminate)) eq_refl)).
Defined.



(** ** Whom the hooks address *)

Lemma trace_of_bind {A B} (m : M A) (k : A → M B) s :
  trace_of ((m ≫= k) s)
  = trace_of (m s) ++ trace_of (k (m s).1.1 (state_of (m s))).
Proof.
  unfold mbind, M_bind, trace_of, state_of.
  destruct (m s) as [[x s1] t1]. simpl.
  by destruct (k x s1) as [[y s2] t2].
Qed.

Lemma own_effects_bind {A B} ws (m : M A) (k : A → M B) :
  own_effects ws m → (∀ x, own_effects ws (k x)) → own_effects ws (m ≫= k).
Proof.
  intros Hm Hk s. rewrite trace_of_bind, forallb_app, Hm. simpl. apply Hk.
Qed.

Lemma own_effects_silent {A} ws (m : M A) :
  (∀ s, trace_of (m s) = []) → own_effects ws m.
Proof. intros H s. by rewrite H. Qed.

Lemma own_effects_one {A} ws (m : M A) e :
  (∀ s, trace_of (m s) = [e]) → addressed_to ws e = true →
  own_effects ws m.
Proof. intros H He s. rewrite H. simpl. by rewrite He. Qed.

Lemma own_effects_for_of {A} ws (xs : list A) (body : A → M unit) :
  (∀ x, own_effects ws (body x)) → own_effects ws (for_of xs body).
Proof.
  intros Hbody. induction xs as [|x xs IH]; simpl.
  - by apply own_effects_silent.
  - by apply own_effects_bind.
Qed.

Ltac own_effects_step ws :=
  first
    [ apply own_effects_bind; [|intros ?]
    | apply own_effects_for_of; intros ?
    | apply own_effects_silent; done
    | eapply own_effects_one;
        [ intros ?; reflexivity | simpl; by rewrite ?Nat.eqb_refl ]
    | case_match ].

(** Whatever the message and the state, the [message], [close] and [open]
    hooks of a connection subscribe, unsubscribe, change the rooms of and
    send to that connection only: they reach other connections by
    publishing alone. *)
Theorem hooks_address_their_own_connection ws messageStr s :
  forallb (addressed_to ws) (trace_of (message ws messageStr s)) = true
  ∧ forallb (addressed_to ws) (trace_of (close ws s)) = true
  ∧ forallb (addressed_to ws) (trace_of (open ws s)) = true.
Proof.
  split_and!.
  - revert s. change (own_effects ws (message ws messageStr)).
    unfold message, joinRoom, leaveRoom. repeat own_effects_step ws.
  - revert s. change (own_effects ws (close ws)).
    unfold close. repeat own_effects_step ws.
  - revert s. change (own_effects ws (open ws)).
    unfold open. repeat own_effects_step ws.
Qed.

(** ** Requests *)

Lemma searchParams_get_first name before v after :
  (∀ k x, In (k, x) before → k ≠ name) →
  searchParams_get name (before ++ (name, v) :: after) = Some v.
Proof.
  induction before as [|[k x] before IH]; intros Hb; simpl.
  - by rewrite String.eqb_refl.
  - assert (k ≠ name) as Hk by (apply (Hb k x); by left).
    apply String.eqb_neq in Hk. rewrite Hk. apply IH.
    intros k' x' Hin. apply (Hb k' x'). by right.
Qed.

(** A user name given in the request is taken as it is, and when the
    parameter occurs several times the first occurrence counts: if no
    parameter before it is called [username] and its value is not empty,
    that value is the user name, whatever comes after it. *)
Theorem username_is_first_value path before v after :
  (∀ k x, In (k, x) before → k ≠ "username") →
  v ≠ "" →
  getUsernameFromReq (mkRequest path (before ++ ("username", v) :: after))
  = v.
Proof.
  intros Hb Hv. unfold getUsernameFromReq, Js.or_else. simpl.
  rewrite searchParams_get_first by done. simpl.
  apply String.eqb_neq in Hv. by rewrite Hv.
Qed.

Lemma username_is_first_value_witness :
  getUsernameFromReq
    (mkRequest "/chat"
       ([("room", "lobby")] ++ ("username", " Bob ") :: [("username", "eve")]))
  = " Bob ".
Proof.
  refine (username_is_first_value "/chat" [("room", "lobby")] " Bob "
            [("username", "eve")] _ _).
  - intros k x [H|[]]. injection H as <- <-. intros H. vm_compute in H.
    discriminate H.
  - intros H. discriminate H.
Defined.

(** [fetch] upgrades a request exactly when its path is ["/chat"] and the
    runtime accepts the upgrade. The connection it then creates is in no
    room and has the user name of the request, which is not empty. A
    ["/chat"] request the runtime refuses is answered with status 400, and a
    request for any other path with status 200 and nothing on the console,
    whatever its parameters. *)
Theorem fetch_upgrades_only_chat req success :
  ((∃ d, (fetch req success).1 = Upgraded d)
   ↔ pathname req = "/chat" ∧ success = true)
  ∧ (∀ d, (fetch req success).1 = Upgraded d →
       rooms d = [] ∧ username d = getUsernameFromReq req ∧ username d ≠ "")
  ∧ (pathname req = "/chat" → success = false →
     (fetch req success).1 = Response "WebSocket upgrade error" 400)
  ∧ (pathname req ≠ "/chat" →
     fetch req success = (Response "Simple WebSocket Server" 200, [])).
Proof.
  unfold fetch.
  destruct (String.eqb_spec (pathname req) "/chat") as [Hp|Hp];
    destruct success; simpl; split_and!; try done.
  - split; [done|]. intros _. by eexists.
  - intros d [= <-]. simpl. split_and!; [done | done |].
    apply getUsernameFromReq_nonempty.
  - split; [by intros [d Hd] | by intros [_ ?]].
  - split; [by intros [d Hd] | by intros [? _]].
  - split; [by intros [d Hd] | by intros [? _]].
Qed.

(** ** The server as a whole *)

Lemma reachable_run evs srv srv' t :
  reachable srv → run_events evs srv = Some (srv', t) → reachable srv'.
Proof.
  revert srv srv' t. induction evs as [|ev evs IH]; intros srv srv' t Hr Hrun.
  - by simplify_eq/=.
  - simpl in Hrun.
    destruct (handle ev srv) as [[srv1 t1]|] eqn:Hev; [|done]. simpl in Hrun.
    destruct (run_events evs srv1) as [[srv2 t2]|] eqn:Hevs; [|done].
    simplify_eq/=. eapply IH; [|done]. by eapply reachable_step.
Qed.

Lemma reachable_after_lobby_session : reachable after_lobby_session.
Proof.
  unfold after_lobby_session.
  destruct (run_events lobby_session initial) as [[srv t]|] eqn:Hrun.
  - eapply reachable_run; [apply reachable_initial | done].
  - apply reachable_initial.
Qed.

Example lobby_session_trace :
  snd <$> run_events lobby_session initial
  = Some
      [ ConsoleLog "WebSocket upgrade request received";
        ConsoleLog "User alice connected";
        Send 1 "Welcome, alice!"; Send 1 help_text;
        ConsoleLog "WebSocket upgrade request received";
        ConsoleLog "User bob connected";
        Send 2 "Welcome, bob!"; Send 2 help_text;
        ConsoleLog "Message from alice: /join lobby";
        Subscribe 1 "lobby"; RoomsAdd 1 "lobby";
        ConsoleLog "User alice joined room: lobby";
        Send 1 "You have joined room: lobby";
        Publish "lobby" "alice has joined the room";
        ConsoleLog "Message from bob: /join lobby";
        Subscribe 2 "lobby"; RoomsAdd 2 "lobby";
        ConsoleLog "User bob joined room: lobby";
        Send 2 "You have joined room: lobby";
        Publish "lobby" "bob has joined the room";
        ConsoleLog "Message from bob: /room lobby hi";
        ConsoleLog "Available rooms : [object Set]";
        Publish "lobby" "[lobby] bob: hi";
        ConsoleLog "User alice disconnected";
        Publish "lobby" "alice has left the room (disconnected)";
        Unsubscribe 1 "lobby";
        RoomsClear 1 ].
Proof. vm_compute. reflexivity. Qed.

Lemma reachable_membership_witness :
  2 ∈ Broadcaster.subscribers "lobby" (topics after_lobby_session)
  ↔ ∃ d, sockets after_lobby_session !! 2 = Some d
         ∧ JsSet.has "lobby" (rooms d) = true.
Proof.
  exact (reachable_membership after_lobby_session 2 "lobby"
           reachable_after_lobby_session).
Defined.

Lemma with_socket_other srv ws0 d0 h keep ws :
  maintains ws0 h → ws ≠ ws0 →
  sockets (with_socket ws0 d0 h keep srv).1 !! ws = sockets srv !! ws
  ∧ ∀ R, ws ∈ Broadcaster.subscribers R
                (topics (with_socket ws0 d0 h keep srv).1)
         ↔ ws ∈ Broadcaster.subscribers R (topics srv).
Proof.
  intros Hh Hne. destruct (Hh (mkCtx d0 (topics srv))) as [_ _ _ Ho].
  unfold with_socket. simpl. split.
  - destruct keep; [by rewrite lookup_insert_ne | by rewrite lookup_delete_ne].
  - intros R. by apply Ho.
Qed.

Lemma with_socket_username srv ws0 d0 h keep d' :
  maintains ws0 h →
  sockets (with_socket ws0 d0 h keep srv).1 !! ws0 = Some d' →
  username d' = username d0.
Proof.
  intros Hh. destruct (Hh (mkCtx d0 (topics srv))) as [Hu _ _ _].
  unfold with_socket. simpl. destruct keep.
  - rewrite lookup_insert_eq. by intros [= <-].
  - by rewrite lookup_delete_eq.
Qed.

(** An event of one connection leaves every other open connection as it
    is: its user name, its rooms and its subscriptions do not change. And no
    event changes the user name of a connection that stays open. *)
Theorem events_leave_other_connections ev srv srv' t ws d :
  handle ev srv = Some (srv', t) →
  sockets srv !! ws = Some d →
  (event_socket ev ≠ ws →
   sockets srv' !! ws = Some d
   ∧ ∀ R, ws ∈ Broadcaster.subscribers R (topics srv')
          ↔ ws ∈ Broadcaster.subscribers R (topics srv))
  ∧ (∀ d', sockets srv' !! ws = Some d' → username d' = username d).
Proof.
  intros Hstep Hd.
  assert (∀ ws0 d0 h keep,
            maintains ws0 h → (ws0 = ws → d0 = d) →
            srv' = (with_socket ws0 d0 h keep srv).1 →
            (ws0 ≠ ws →
             sockets srv' !! ws = Some d
             ∧ ∀ R, ws ∈ Broadcaster.subscribers R (topics srv')
                    ↔ ws ∈ Broadcaster.subscribers R (topics srv))
            ∧ (∀ d', sockets srv' !! ws = Some d' → username d' = username d))
    as Hgen.
  { intros ws0 d0 h keep Hh Hsame ->. split.
    - intros Hne.
      destruct (with_socket_other srv ws0 d0 h keep ws Hh) as [Hs Ht];
        [done|]. by rewrite Hs.
    - intros d' Hd'. destruct (decide (ws0 = ws)) as [Heq|Hne].
      + subst ws0. rewrite <- (Hsame eq_refl).
        by eapply with_socket_username.
      + destruct (with_socket_other srv ws0 d0 h keep ws Hh) as [Hs _];
          [done|]. rewrite Hs in Hd'. congruence. }
  destruct ev as [ws0 req success|ws0 messageStr|ws0]; simpl in Hstep.
  - destruct (sockets srv !! ws0) as [d0|] eqn:Hd0; [done|].
    destruct (fetch req success) as [[d0|body status] t0] eqn:Hf.
    + injection Hstep as <- <-.
      apply (Hgen ws0 d0 (open ws0) true);
        [apply maintains_open | | reflexivity].
      intros ->. congruence.
    + injection Hstep as <- <-. split; [done|]. intros d'. congruence.
  - destruct (sockets srv !! ws0) as [d0|] eqn:Hd0; [|done].
    simpl in Hstep. injection Hstep as <- <-.
    apply (Hgen ws0 d0 (message ws0 messageStr) true);
      [apply maintains_message | | reflexivity].
    intros ->. congruence.
  - destruct (sockets srv !! ws0) as [d0|] eqn:Hd0; [|done].
    simpl in Hstep. injection Hstep as <- <-.
    apply (Hgen ws0 d0 (close ws0) false);
      [apply maintains_close | | reflexivity].
    intros ->. congruence.
Qed.

Lemma events_leave_other_connections_witness :
  ∃ srv' t,
    handle (Receive 2 "/join lobby") two_users = Some (srv', t)
    ∧ sockets two_users !! 1%nat = Some (mkData "alice" ["lobby"])
    ∧ sockets srv' !! 1%nat = Some (mkData "alice" ["lobby"]).
Proof.
  destruct (handle (Receive 2 "/join lobby") two_users) as [[srv' t]|] eqn:H.
  - exists srv', t. split; [reflexivity|]. split; [reflexivity|].
    refine (proj1 (proj1 (events_leave_other_connections
                            (Receive 2 "/join lobby") two_users srv' t 1
                            (mkData "alice" ["lobby"]) H eq_refl) _)).
    simpl. lia.
  - vm_compute in H. discriminate H.
Defined.

(** ** Leaving twice, and where a connection can publish *)

(** Leaving a room a second time changes nothing more: the connection gets
    ["You are not in room {room}"], nothing is published, and the state
    stays the one the first leave gave. *)
Theorem leaveRoom_twice ws R s :
  JsSet.has R (rooms (data s)) = true →
  let s1 := state_of (leaveRoom ws R s) in
  trace_of (leaveRoom ws R s1) = [ Send ws ("You are not in room " +:+ R) ]
  ∧ state_of (leaveRoom ws R s1) = s1.
Proof.
  intros Hhas s1. subst s1. rewrite (leaveRoom_run_present ws R s) by done.
  change (state_of (?x, ?y, ?z)) with y.
  rewrite leaveRoom_run_absent; [done|].
  simpl. by rewrite has_delete, String.eqb_refl.
Qed.

Lemma leaveRoom_twice_witness :
  trace_of (leaveRoom 7 "lobby"
              (state_of (leaveRoom 7 "lobby" (in_lobby 7 "alice"))))
  = [ Send 7 "You are not in room lobby" ].
Proof.
  exact (proj1 (leaveRoom_twice 7 "lobby" (in_lobby 7 "alice") eq_refl)).
Defined.

Lemma In_close_events ws u rs R x :
  In (Publish R x) (close_events ws u rs) → JsSet.has R rs = true.
Proof.
  induction rs as [|r rs IH]; simpl; [done|].
  intros [H|[H|H]].
  - injection H as -> _. by rewrite String.eqb_refl.
  - discriminate H.
  - rewrite (IH H). apply orb_true_r.
Qed.

(** A connection publishes only to rooms of its own: whatever it sends,
    every publication the [message] hook makes goes to a room that is in
    the rooms of the connection before or after the message (after, for a
    join; before, for a leave), and every publication of [close] goes to a
    room the connection was in. *)
Theorem publications_go_to_own_rooms ws messageStr s R x :
  (In (Publish R x) (trace_of (message ws messageStr s)) →
   JsSet.has R (rooms (data s)) = true
   ∨ JsSet.has R (rooms (data (state_of (message ws messageStr s)))) = true)
  ∧ (In (Publish R x) (trace_of (close ws s)) →
     JsSet.has R (rooms (data s)) = true).
Proof.
  split.
  - unfold message. rewrite log_then. unfold trace_of at 1, state_of at 1.
    simpl. intros [H|H]; [discriminate H|]. revert H.
    destruct (Js.startsWith messageStr "/");
      [|simpl; intros [H|[]]; discriminate H].
    destruct (Js.split " " (Js.slice1 messageStr)) as [|command args];
      [simpl; done|].
    cbv zeta.
    destruct (String.eqb (Js.toLowerCase command) "join").
    { destruct (Js.falsy (args !! 0%nat));
        [simpl; intros [H|[]]; discriminate H|].
      rewrite joinRoom_run. unfold trace_of, state_of. simpl.
      intros [H|[H|[H|[H|[H|[]]]]]]; try discriminate H.
      injection H as -> _. right. by rewrite has_add, String.eqb_refl. }
    destruct (String.eqb (Js.toLowerCase command) "leave").
    { destruct (Js.falsy (args !! 0%nat));
        [simpl; intros [H|[]]; discriminate H|].
      destruct (JsSet.has (str (args !! 0%nat)) (rooms (data s))) eqn:Hhas.
      - rewrite leaveRoom_run_present by done. unfold trace_of. simpl.
        intros [H|[H|[H|[H|[H|[]]]]]]; try discriminate H.
        injection H as <- _. by left.
      - rewrite leaveRoom_run_absent by done. unfold trace_of. simpl.
        intros [H|[]]. discriminate H. }
    destruct (String.eqb (Js.toLowerCase command) "room").
    { destruct (Js.falsy (args !! 0%nat) || Js.falsy_str _);
        [simpl; intros [H|[]]; discriminate H|].
      step_handler.
      destruct (JsSet.has (str (args !! 0%nat)) (rooms (data s))) eqn:Hhas;
        simpl; intros [H|[H|[]]]; try discriminate H.
      injection H as <- _. by left. }
    destruct (String.eqb (Js.toLowerCase command) "rooms");
      [simpl; intros [H|[]]; discriminate H|].
    destruct (String.eqb (Js.toLowerCase command) "myrooms").
    { step_handler. destruct (JsSet.size (rooms (data s)) =? 0)%nat;
        simpl; intros [H|[]]; discriminate H. }
    simpl. intros [H|[]]. discriminate H.
  - rewrite close_run. unfold trace_of. simpl.
    intros [H|H]; [discriminate H|].
    apply in_app_or in H as [H|[H|[]]]; [|discriminate H].
    by eapply In_close_events.
Qed.

Lemma publications_go_to_own_rooms_witness :
  JsSet.has "lobby"
    (rooms (data (state_of (message 7 "/join lobby" (fresh "alice")))))
  = true.
Proof.
  destruct (proj1 (publications_go_to_own_rooms 7 "/join lobby"
                     (fresh "alice") "lobby" "alice has joined the room"))
    as [H|H].
  - vm_compute. tauto.
  - vm_compute in H. discriminate H.
  - exact H.
Defined.
